(** * OnyxNoteRenderer: the stroke pipeline of [onyx_render.py]

    A shallow embedding of [moving_average], [subsample], [smoothen] and of
    the drawing loop of [render_pdf], with the properties of the stroke
    reconstruction pipeline stated over it.

    numpy arrays are lists of rows.  The arithmetic of the array elements is
    kept abstract behind two interfaces, so that every structural fact (which
    canvas calls are made, in which order, how long a smoothed sequence is)
    holds whatever the number representation is:

    - [Elem]: what the smoother needs of an array row (a scalar for the
      pressure column, a pair for the position columns);
    - [Scalar]: what [render_pdf] needs of a number.

    Two models of the numbers are used: IEEE binary64 (Rocq's primitive
    floats, the arithmetic of a numpy float64 array) and the rationals
    (exact arithmetic, for the facts that hold up to rounding only). *)

From Stdlib Require Import ZArith QArith Qminmax Lqa PrimFloat Uint63 Ascii String.
From stdpp Require Import base list gmap strings.

Local Open Scope Z_scope.
Set Warnings "-inexact-float".

(** ** Array elements *)

(** The operations numpy applies to the rows of an array in the smoother:
    [+] (in [np.cumsum] and [mean]), [-], and [/] by a Python int.  [ezero] is
    the value of a sum over no element. *)
Class Elem (E : Type) := {
  ezero : E;
  eadd : E -> E -> E;
  esub : E -> E -> E;
  ediv : E -> Z -> E
}.

(** A row of two columns (shape [(n, 2)]): numpy works column by column. *)
#[export] Instance pair_elem {E} `{Elem E} : Elem (E * E) := {
  ezero := (ezero, ezero);
  eadd p q := (eadd p.1 q.1, eadd p.2 q.2);
  esub p q := (esub p.1 q.1, esub p.2 q.2);
  ediv p n := (ediv p.1 n, ediv p.2 n)
}.

(** Exact arithmetic. *)
#[export] Instance Q_elem : Elem Q := {
  ezero := 0%Q;
  eadd := Qplus;
  esub := Qminus;
  ediv x n := (x / inject_Z n)%Q
}.

Section Smoother.
Context {E : Type} `{Elem E}.

(** [np.cumsum(a, 0)]: [out[0] = a[0]], [out[i] = out[i-1] + a[i]]. *)
Fixpoint cumsum_from (acc : E) (a : list E) : list E :=
  match a with
  | [] => []
  | x :: a' => let s := eadd acc x in s :: cumsum_from s a'
  end.

Definition cumsum (a : list E) : list E :=
  match a with
  | [] => []
  | x :: a' => x :: cumsum_from x a'
  end.

(** [a[-1:]]: the last row as a one-row array (empty when [a] is). *)
Definition last_row (a : list E) : list E := drop (length a - 1)%nat a.

(** [[row] * count] unpacked into [np.concatenate]. *)
Definition pad (row : list E) (count : Z) : list E :=
  concat (replicate (Z.to_nat count) row).

(** [moving_average(bdata, window_size)], lines 46-64. *)
Definition moving_average (bdata : list E) (window_size : Z) : list E :=
  if window_size <=? 1 then bdata
  else
    let first := take 1 bdata in
    let last := last_row bdata in
    let before := window_size / 2 in
    let after := window_size - before in
    let bdata := pad first before ++ bdata ++ pad last after in
    let csum := cumsum bdata in
    let w := Z.to_nat window_size in
    let bdata := zip_with esub (drop w csum) (take (length csum - w)%nat csum) in
    (fun x => ediv x window_size) <$> bdata.

(** [block.sum()] as numpy reduces it, starting from the first row, and
    [block.mean()]. *)
Definition esum (block : list E) : E :=
  match block with
  | [] => ezero
  | x :: block' => foldl eadd x block'
  end.

Definition mean (block : list E) : E :=
  ediv (esum block) (Z.of_nat (length block)).

(** [subsample(bdata, subsample)], lines 67-76.  [reshape(-1, k, ...)] cuts
    the padded array into consecutive blocks of [k] rows. *)
Definition subsample (bdata : list E) (subsample : Z) : list E :=
  if subsample <=? 1 then bdata
  else
    let n := Z.of_nat (length bdata) in
    let bdata :=
      if negb (n mod subsample =? 0)
      then bdata ++ pad (last_row bdata) (subsample - n mod subsample)
      else bdata in
    let k := Z.to_nat subsample in
    mean <$> reshape (replicate (length bdata / k)%nat k) bdata.

(** The array [subsample] cuts into blocks (lines 71-73 on their own): the
    input, padded with copies of its last row up to a multiple of [k]. *)
Definition padded_to_blocks (bdata : list E) (k : Z) : list E :=
  if negb (Z.of_nat (length bdata) mod k =? 0)
  then bdata ++ pad (last_row bdata) (k - Z.of_nat (length bdata) mod k)
  else bdata.

(** [smoothen(bdata, window_size, n_subsample)], lines 79-82. *)
Definition smoothen (bdata : list E) (window_size n_subsample : Z) : list E :=
  let bdata := moving_average bdata window_size in
  let bdata := subsample bdata n_subsample in
  bdata.

End Smoother.

(** ** Numbers *)

(** What [render_pdf] does with a number.  [lit q] is the number a Python
    int or float literal of value [q] denotes; [fpow_half x] is [x ** 0.5],
    the only power the program takes ([pressure_pow = 0.5]); [fne] and [fgt]
    are [!=] and [>]. *)
Class Scalar (A : Type) := {
  lit : Q -> A;
  fadd : A -> A -> A;
  fsub : A -> A -> A;
  fmul : A -> A -> A;
  fdiv : A -> A -> A;
  fpow_half : A -> A;
  fne : A -> A -> bool;
  fgt : A -> A -> bool
}.

(** A Python int used as a number. *)
Definition of_int {A} `{Scalar A} (n : Z) : A := lit (inject_Z n).

(** A one-column array of numbers (shape [(n,)]). *)
#[export] Instance scalar_elem {A} `{Scalar A} : Elem A := {
  ezero := of_int 0;
  eadd := fadd;
  esub := fsub;
  ediv x n := fdiv x (of_int n)
}.

(** IEEE binary64.  An integer below [2^53] in magnitude converts exactly, and
    a correctly rounded quotient of two such integers is the double nearest to
    the fraction, which is what a decimal literal denotes. *)
Definition float_of_Z (n : Z) : float :=
  match n with
  | Z0 => PrimFloat.zero
  | Zpos _ => PrimFloat.of_uint63 (Uint63.of_Z n)
  | Zneg p => PrimFloat.opp (PrimFloat.of_uint63 (Uint63.of_Z (Zpos p)))
  end.

#[export] Instance float_scalar : Scalar float := {
  lit q := PrimFloat.div (float_of_Z (Qnum q)) (float_of_Z (Zpos (Qden q)));
  fadd := PrimFloat.add;
  fsub := PrimFloat.sub;
  fmul := PrimFloat.mul;
  fdiv := PrimFloat.div;
  fpow_half := PrimFloat.sqrt;
  fne x y := negb (PrimFloat.eqb x y);
  fgt x y := PrimFloat.ltb y x
}.

(** ** The canvas *)

(** The calls [render_pdf] makes on the cairo context [cr], in the order it
    makes them. *)
Inductive op (A : Type) : Type :=
  | set_source_rgb (r g b : A)
  | set_line_cap_round
  | set_line_join_round
  | set_line_width (w : A)
  | move_to (x y : A)
  | line_to (x y : A)
  | stroke
  | show_page.
Arguments set_source_rgb {A} r g b.
Arguments set_line_cap_round {A}.
Arguments set_line_join_round {A}.
Arguments set_line_width {A} w.
Arguments move_to {A} x y.
Arguments line_to {A} x y.
Arguments stroke {A}.
Arguments show_page {A}.

(** A row of [NewShapeModel] as the query of line 110 selects it: [points] is
    the blob seen as an array of 32-bit floats ([np.frombuffer] and
    [byteswap]), [matrixValues] the list under the key ["values"]. *)
Record shape (A : Type) : Type := Shape {
  points : list A;
  matrixValues : list A;
  thickness : A;
  shapeType : Z;
  color : Z
}.
Arguments Shape {A} points matrixValues thickness shapeType color.
Arguments points {A} s.
Arguments matrixValues {A} s.
Arguments thickness {A} s.
Arguments shapeType {A} s.
Arguments color {A} s.

(** The descriptor of a note, as [read_doc_list] builds it. *)
Record descriptor : Type := Descriptor {
  title : string;
  pages : list string
}.

(** numpy's refusal to reshape: [cannot reshape array of size ... into
    shape ...]. *)
Inductive exn : Type :=
  | ValueError (size : nat) (shape : list Z).

(** The values tracked from one stroke to the next. *)
Record paint (A : Type) : Type := Paint {
  prev_color : Z * Z * Z;
  prev_thickness : A
}.
Arguments Paint {A} prev_color prev_thickness.
Arguments prev_color {A} p.
Arguments prev_thickness {A} p.

Section Render.
Context {A : Type} `{Scalar A}.

(** The constants of [render_pdf], lines 86-95. *)
Definition letter : A * A := (fmul (lit 8.5) (of_int 72), of_int (11 * 72)).
Definition scale : A := letter.2.
Definition width_scale : A := lit 0.3.
Definition pressure_norm : A := of_int 1000.
Definition enable_pressure : bool := true.
Definition n_subsample : Z := 2.
Definition average_win_size : Z := 10.

(** [a.reshape(-1, cols)] and [a.reshape(3, 3)]. *)
Definition reshape_rows (a : list A) (cols : nat) : exn + list (list A) :=
  if (length a mod cols =? 0)%nat
  then inr (reshape (replicate (length a / cols)%nat cols) a)
  else inl (ValueError (length a) [-1; Z.of_nat cols]).

Definition reshape_3_3 (a : list A) : exn + list (list A) :=
  if (length a =? 9)%nat
  then inr (reshape [3; 3; 3]%nat a)
  else inl (ValueError (length a) [3; 3]).

(** [v[i]] on a row known to be long enough. *)
Definition item (v : list A) (i : nat) : A := default (of_int 0) (v !! i).

(** One entry of [points @ matrix.T]: row [u] of the left array against row
    [m] of [matrix]. *)
Definition dot3 (u m : list A) : A :=
  fadd (fadd (fmul (item u 0) (item m 0)) (fmul (item u 1) (item m 1)))
       (fmul (item u 2) (item m 2)).

(** Lines 115-127: the rows of six floats, the pressure column normalised,
    the position columns projected by the matrix. *)
Definition decode (row : shape A) : exn + (list (A * A) * list A) :=
  match reshape_3_3 (matrixValues row) with
  | inl e => inl e
  | inr matrix =>
    match reshape_rows (points row) 6 with
    | inl e => inl e
    | inr d =>
      let pressure := (fun s => fpow_half (fdiv (item s 2) pressure_norm)) <$> d in
      let points := (fun s => [item s 0; item s 1; of_int 1]) <$> d in
      let points :=
        (fun u => (dot3 u (default [] (matrix !! 0%nat)),
                   dot3 u (default [] (matrix !! 1%nat)))) <$> points in
      inr (points, pressure)
    end
  end.

(** Python's [max(x, y)] of two arguments: [y] when [y > x], else [x]. *)
Definition pymax (x y : A) : A := if fgt y x then y else x.

(** [color & 0xFF, (color >> 8) & 0xFF, (color >> 16) & 0xFF], line 136. *)
Definition channels (color : Z) : Z * Z * Z :=
  (Z.land color 255, Z.land (Z.shiftr color 8) 255, Z.land (Z.shiftr color 16) 255).

(** Lines 130-141: what the change of thickness and of colour send to the
    canvas, and the values tracked afterwards. *)
Definition set_thickness (st : paint A) (thickness : A) : paint A * list (op A) :=
  if fne (prev_thickness st) thickness
  then (Paint (prev_color st) thickness,
        [stroke; set_line_width (fmul thickness width_scale)])
  else (st, []).

Definition set_color (st : paint A) (color : Z * Z * Z) : paint A * list (op A) :=
  if bool_decide (color <> prev_color st)
  then (Paint color (prev_thickness st),
        [stroke;
         set_source_rgb (fdiv (of_int color.2) (of_int 255))
                        (fdiv (of_int color.1.2) (of_int 255))
                        (fdiv (of_int color.1.1) (of_int 255))])
  else (st, []).

(** Lines 151-162: the body of the loop over the smoothed samples. *)
Definition draw_sample (has_pressure : bool) (thickness : A)
    (points : list (A * A)) (pressure : list A) (r : nat) : list (op A) :=
  let p := default (of_int 0, of_int 0) (points !! r) in
  (if has_pressure
   then [set_line_width
           (pymax (fmul (fmul thickness width_scale) (item pressure r)) (lit 0.1))]
   else [])
  ++ (if (r =? 0)%nat
      then [move_to p.1 p.2]
      else line_to p.1 p.2
           :: (if has_pressure then [stroke; move_to p.1 p.2] else [])).

(** [points * scale], line 143. *)
Definition scaled (points : list (A * A)) : list (A * A) :=
  (fun p => (fmul p.1 scale, fmul p.2 scale)) <$> points.

(** Lines 143-162: scaling, smoothing and the loop [for r in range(...)]. *)
Definition draw (thickness : A) (shapeType : Z)
    (points : list (A * A)) (pressure : list A) : list (op A) :=
  let points := scaled points in
  let has_pressure := enable_pressure && (shapeType =? 5) in
  let points := smoothen points average_win_size n_subsample in
  let pressure := smoothen pressure average_win_size n_subsample in
  concat (draw_sample has_pressure thickness points pressure <$> seq 0 (length points)).

(** Lines 130-141 together: the calls that apply a row's thickness and
    colour, and the values tracked once the row is drawn. *)
Definition paint_ops (st : paint A) (row : shape A) : list (op A) :=
  (set_thickness st (thickness row)).2
  ++ (set_color (set_thickness st (thickness row)).1 (channels (color row))).2.

Definition track (st : paint A) (row : shape A) : paint A :=
  (set_color (set_thickness st (thickness row)).1 (channels (color row))).1.

(** Lines 113-162: one row of the cursor. *)
Definition render_shape (st : paint A) (row : shape A) : exn + (paint A * list (op A)) :=
  match decode row with
  | inl e => inl e
  | inr (points, pressure) =>
    let '(st, ops_thickness) := set_thickness st (thickness row) in
    let '(st, ops_color) := set_color st (channels (color row)) in
    inr (st, ops_thickness ++ ops_color
             ++ draw (thickness row) (shapeType row) points pressure)
  end.

(** Lines 112-162: the rows of one page.  The canvas calls made before a row
    raises stay made. *)
Fixpoint render_shapes (st : paint A) (rows : list (shape A))
    : list (op A) * (exn + paint A) :=
  match rows with
  | [] => ([], inr st)
  | row :: rows =>
    match render_shape st row with
    | inl e => ([], inl e)
    | inr (st, ops) =>
      let '(ops', r) := render_shapes st rows in (ops ++ ops', r)
    end
  end.

(** Lines 109-165: one page; [db page] is what the query returns for it. *)
Definition render_page (st : paint A) (rows : list (shape A))
    : list (op A) * (exn + paint A) :=
  match render_shapes st rows with
  | (ops, inr st) => (ops ++ [stroke; show_page], inr st)
  | (ops, inl e) => (ops, inl e)
  end.

(** Lines 108-165: the loop over the pages. *)
Fixpoint render_pages (db : string -> list (shape A)) (st : paint A)
    (pages : list string) : list (op A) * (exn + paint A) :=
  match pages with
  | [] => ([], inr st)
  | page :: pages =>
    match render_page st (db page) with
    | (ops, inl e) => (ops, inl e)
    | (ops, inr st) =>
      let '(ops', r) := render_pages db st pages in (ops ++ ops', r)
    end
  end.

(** Lines 99-105: the set-up of the context and the first tracked values. *)
Definition setup : list (op A) :=
  [set_source_rgb (of_int 0) (of_int 0) (of_int 0);
   set_line_cap_round; set_line_join_round].

Definition initial_paint : paint A := Paint (0, 0, 0) (of_int 0).

(** [render_pdf(descriptor, tmpdir, filename)]: the calls made on the canvas,
    and the exception that ended the rendering, if one did. *)
Definition render_pdf (db : string -> list (shape A)) (descriptor : descriptor)
    : list (op A) * option exn :=
  let '(ops, r) := render_pages db initial_paint (pages descriptor) in
  (setup ++ ops, match r with inl e => Some e | inr _ => None end).

End Render.

(** ** Reading a sequence of canvas calls *)

Definition is_stroke {A} (o : op A) : bool :=
  match o with stroke => true | _ => false end.

Definition is_line_to {A} (o : op A) : bool :=
  match o with line_to _ _ => true | _ => false end.


(** A call that changes how a path is painted. *)
Definition is_set {A} (o : op A) : bool :=
  match o with set_line_width _ | set_source_rgb _ _ _ => true | _ => false end.

Definition is_set_source_rgb {A} (o : op A) : bool :=
  match o with set_source_rgb _ _ _ => true | _ => false end.


(** How many calls of a kind a sequence holds. *)
Definition count {A} (kind : op A -> bool) (ops : list (op A)) : nat :=
  length (List.filter kind ops).

(** ** Bounds of a sequence of rationals *)

(** The least and the greatest element of a non-empty sequence. *)
Definition qmin_list (l : list Q) : Q :=
  match l with
  | [] => 0%Q
  | x :: l' => foldl Qmin x l'
  end.

Definition qmax_list (l : list Q) : Q :=
  match l with
  | [] => 0%Q
  | x :: l' => foldl Qmax x l'
  end.

(** A column [proj] of the row [x] lies between [lo] and [hi]. *)
Definition within {E} (proj : E -> Q) (lo hi : Q) (x : E) : Prop :=
  (lo <= proj x <= hi)%Q.

(** Column [proj] of every row of [output] lies between the least and the
    greatest value of that column over [input]. *)
Definition in_input_range {E} (proj : E -> Q) (input output : list E) : Prop :=
  Forall (within proj (qmin_list (proj <$> input)) (qmax_list (proj <$> input))) output.

(** ** Sample rows (binary64) *)

Definition identity_matrix : list float := [1; 0; 0; 0; 1; 0; 0; 0; 1]%float.

(** Three samples on the diagonal, at pressure 500 of 1000. *)
Definition three_samples : list float :=
  [0; 0; 500; 0; 0; 0;  0.25; 0.25; 500; 0; 0; 0;  0.5; 0.5; 500; 0; 0; 0]%float.

(** Five samples on the diagonal, the pressure falling off. *)
Definition five_samples : list float :=
  [0; 0; 500; 0; 0; 0;  0.25; 0.25; 500; 0; 0; 0;  0.5; 0.5; 250; 0; 0; 0;
   0.75; 0.75; 200; 0; 0; 0;  1; 1; 1; 0; 0; 0]%float.

(** A line of fixed width and a pen stroke, both of thickness 2 and of packed
    colour [0x0000FF]. *)
Definition blue_line : shape float := Shape three_samples identity_matrix 2%float 1 0x0000FF.
(** A row whose blob holds seven floats. *)
Definition ragged : shape float :=
  Shape [0; 0; 500; 0; 0; 0; 1]%float identity_matrix 2%float 1 0x0000FF.

Definition blue_pen : shape float := Shape five_samples identity_matrix 2%float 5 0x0000FF.

(** What [decode] makes of [blue_line] and of [blue_pen]. *)
Definition blue_line_points : list (float * float) :=
  [(0, 0); (0.25, 0.25); (0.5, 0.5)]%float.
Definition blue_line_pressure : list float :=
  Eval vm_compute in
    (fun x => PrimFloat.sqrt (PrimFloat.div x 1000)) <$> [500; 500; 500]%float.

Definition blue_pen_points : list (float * float) :=
  [(0, 0); (0.25, 0.25); (0.5, 0.5); (0.75, 0.75); (1, 1)]%float.
Definition blue_pen_pressure : list float :=
  Eval vm_compute in
    (fun x => PrimFloat.sqrt (PrimFloat.div x 1000)) <$> [500; 500; 250; 200; 1]%float.

(** ** The catalogue of notes *)

(** A row of the table [NoteModel] of [ShapeDatabase.db], with the columns
    the two queries of [read_doc_list] select and the column [type] they
    filter on (0: a folder, 1: a note).  [pageNameList] is the list under
    the key ["pageNameList"] of the JSON text of that column. *)
Module NoteModel.
Record t : Type := Row {
  uniqueId : string;
  title : string;
  pageNameList : list string;
  parentUniqueId : option string;
  type : Z
}.
End NoteModel.

(** An entry of the list [read_doc_list] returns. *)
Module Note.
Record t : Type := Make {
  id : string;
  title : string;
  pages : list string;
  dirname : string
}.
End Note.

(** The exception of a dictionary without the key. *)
Inductive lookup_exn : Type :=
  | KeyError (key : string).

(** [os.path.join(a, *p)] of [posixpath]: a component that starts with the
    separator replaces what was joined before it. *)
Definition starts_with_sep (s : string) : bool :=
  match s with
  | String c _ => Ascii.eqb c "/"%char
  | _ => false
  end.

Fixpoint ends_with_sep (s : string) : bool :=
  match s with
  | EmptyString => false
  | String c EmptyString => Ascii.eqb c "/"%char
  | String _ s' => ends_with_sep s'
  end.

Definition join_step (path b : string) : string :=
  if starts_with_sep b then b
  else if String.eqb path "" || ends_with_sep path then path +:+ b
  else path +:+ "/" +:+ b.

Definition join (a : string) (p : list string) : string := foldl join_step a p.

(** The loop of [get_dir], lines 16-19; [dirs[parent]] is a pair of the
    title and the parent.  The loop runs for as long as it finds a parent:
    [None] is a run that [fuel] steps do not end. *)
Fixpoint get_dir_loop (fuel : nat) (dirs : gmap string (string * option string))
    (parent : option string) (dlist : list string)
    : option (lookup_exn + list string) :=
  match parent with
  | None => Some (inr dlist)
  | Some key =>
    match fuel with
    | O => None
    | S fuel =>
      match dirs !! key with
      | None => Some (inl (KeyError key))
      | Some p => get_dir_loop fuel dirs p.2 (p.1 :: dlist)
      end
    end
  end.

(** [get_dir(dirs, parent)], lines 14-21. *)
Definition get_dir (fuel : nat) (dirs : gmap string (string * option string))
    (parent : option string) : option (lookup_exn + string) :=
  match get_dir_loop fuel dirs parent [] with
  | None => None
  | Some (inl e) => Some (inl e)
  | Some (inr dlist) =>
    Some (inr (match dlist with
               | [] => ""%string
               | a :: p => join a p
               end))
  end.

(** Lines 29-32: the dictionary of the folders; a later row of the same id
    replaces an earlier one. *)
Definition read_dirs (table : list NoteModel.t) : gmap string (string * option string) :=
  foldl (fun dirs row =>
           <[NoteModel.uniqueId row := (NoteModel.title row, NoteModel.parentUniqueId row)]> dirs)
        ∅ (List.filter (fun row => NoteModel.type row =? 0) table).

(** Lines 36-41: one entry for each note, in the order of the cursor. *)
Fixpoint read_docs (fuel : nat) (dirs : gmap string (string * option string))
    (rows : list NoteModel.t) : option (lookup_exn + list Note.t) :=
  match rows with
  | [] => Some (inr [])
  | row :: rows =>
    match get_dir fuel dirs (NoteModel.parentUniqueId row) with
    | None => None
    | Some (inl e) => Some (inl e)
    | Some (inr dirname) =>
      match read_docs fuel dirs rows with
      | None => None
      | Some (inl e) => Some (inl e)
      | Some (inr res) =>
        Some (inr (Note.Make (NoteModel.uniqueId row) (NoteModel.title row)
                             (NoteModel.pageNameList row) dirname :: res))
      end
    end
  end.

(** [read_doc_list(tmpdir)], lines 23-43, on the rows of [NoteModel] in the
    order the cursors go through them. *)
Definition read_doc_list (fuel : nat) (table : list NoteModel.t)
    : option (lookup_exn + list Note.t) :=
  read_docs fuel (read_dirs table)
            (List.filter (fun row => NoteModel.type row =? 1) table).

(** What [render_all] does to the file system: the directories it makes and
    the documents it renders, with the canvas calls of each. *)
Inductive action (A : Type) : Type :=
  | makedirs (dir : string)
  | render (fname : string) (ops : list (op A)).
Arguments makedirs {A} dir.
Arguments render {A} fname ops.

(** What ends [render_all] early. *)
Inductive failure : Type :=
  | CatalogError (e : lookup_exn)
  | RenderError (e : exn).

Section RenderAll.
Context {A : Type} `{Scalar A}.

(** Lines 178-183: the loop over the notes; [store id] is the table
    [NewShapeModel] of the database [id + ".db"], by page. *)
Fixpoint render_notes (store : string -> string -> list (shape A)) (save_to : string)
    (notes : list Note.t) : list (action A) * option failure :=
  match notes with
  | [] => ([], None)
  | note :: notes =>
    let dir := join save_to [Note.dirname note] in
    let fname := join dir [Note.title note +:+ ".pdf"] in
    match render_pdf (store (Note.id note)) (Descriptor (Note.title note) (Note.pages note)) with
    | (ops, Some e) => ([makedirs dir; render fname ops], Some (RenderError e))
    | (ops, None) =>
      let '(actions, r) := render_notes store save_to notes in
      (makedirs dir :: render fname ops :: actions, r)
    end
  end.

(** [render_all(zip_name, save_to)], lines 167-183, on the extracted
    archive: the catalogue and the stores of the notes. *)
Definition render_all (fuel : nat) (table : list NoteModel.t)
    (store : string -> string -> list (shape A)) (save_to : string)
    : option (list (action A) * option failure) :=
  match read_doc_list fuel table with
  | None => None
  | Some (inl e) => Some ([], Some (CatalogError e))
  | Some (inr notes) => Some (render_notes store save_to notes)
  end.

End RenderAll.

(** The folders above [parent] as [dirs] links them, with their titles from
    the root down. *)
Inductive ancestors (dirs : gmap string (string * option string))
    : option string -> list string -> Prop :=
  | ancestors_none : ancestors dirs None []
  | ancestors_some key title parent above :
      dirs !! key = Some (title, parent) ->
      ancestors dirs parent above ->
      ancestors dirs (Some key) (above ++ [title]).

(** One turn of the loop of [get_dir]: from a folder to its parent. *)
Definition parent_of (dirs : gmap string (string * option string))
    (x y : option string) : Prop :=
  exists key title, x = Some key /\ dirs !! key = Some (title, y).

(** What [render_all] makes for one note. *)
Definition note_actions {A} `{Scalar A} (store : string -> string -> list (shape A))
    (save_to : string) (note : Note.t) : list (action A) :=
  [makedirs (join save_to [Note.dirname note]);
   render (join (join save_to [Note.dirname note]) [Note.title note +:+ ".pdf"])
          (render_pdf (store (Note.id note))
                      (Descriptor (Note.title note) (Note.pages note))).1].

(** A catalogue of two nested folders, a note in the inner one and a note at
    the top level. *)
Definition sample_catalogue : list NoteModel.t :=
  [NoteModel.Row "f1" "Work" [] None 0;
   NoteModel.Row "f2" "2024" [] (Some "f1"%string) 0;
   NoteModel.Row "n1" "Ideas" ["p1"; "p2"] (Some "f2"%string) 1;
   NoteModel.Row "n2" "Top" ["q"] None 1]%string.

(** The two entries [read_doc_list] returns for it. *)
Definition note_ideas : Note.t := Note.Make "n1" "Ideas" ["p1"; "p2"]%string "Work/2024".
Definition note_top : Note.t := Note.Make "n2" "Top" ["q"%string] "".

(** ** More ways to read rows and canvas calls *)

Definition is_show_page {A} (o : op A) : bool :=
  match o with show_page => true | _ => false end.

(** A row [decode] accepts: nine matrix values and whole samples. *)
Definition well_formed {A} (row : shape A) : Prop :=
  length (matrixValues row) = 9%nat /\ (length (points row) mod 6 = 0)%nat.

#[export] Instance well_formed_dec {A} (row : shape A) : Decision (well_formed row).
Proof. unfold well_formed. apply _. Defined.

(** The blob of a list of samples: [x, y, pressure] and three more floats
    for each. *)
Definition blob {A} (samples : list ((A * A * A) * (A * A * A))) : list A :=
  mjoin ((fun s => [s.1.1.1; s.1.1.2; s.1.2; s.2.1.1; s.2.1.2; s.2.2]) <$> samples).

(** The sum of a sequence of rationals. *)
Definition qsum (l : list Q) : Q := foldr Qplus 0%Q l.

(** ** Lengths of the smoothed arrays *)

Section SmootherLength.
Context {E : Type} `{Elem E}.
Implicit Types (a bdata : list E) (x : E).

Lemma length_cumsum_from x a : length (cumsum_from x a) = length a.
Proof. revert x. induction a as [|y a IH]; intros x; simpl; [done|]. by rewrite IH. Qed.

Lemma length_cumsum a : length (cumsum a) = length a.
Proof. destruct a; simpl; [done|]. by rewrite length_cumsum_from. Qed.

Lemma pad_nil (count : Z) : pad (@nil E) count = [].
Proof.
  unfold pad. induction (Z.to_nat count) as [|n IH]; simpl; [done|]. exact IH.
Qed.

Lemma pad_singleton x (count : Z) : pad [x] count = replicate (Z.to_nat count) x.
Proof.
  unfold pad. induction (Z.to_nat count) as [|n IH]; simpl; [done|]. by rewrite IH.
Qed.

Lemma last_row_nil : last_row (@nil E) = [].
Proof. done. Qed.

Lemma last_row_snoc a x : last_row (a ++ [x]) = [x].
Proof.
  unfold last_row. rewrite length_app. simpl.
  replace (length a + 1 - 1)%nat with (length a) by lia.
  by rewrite drop_app_length.
Qed.

(** A non-empty array has a first and a last row. *)
Lemma first_last_rows a :
  a <> [] -> exists x y, take 1 a = [x] /\ last_row a = [y] /\ x ∈ a /\ y ∈ a.
Proof.
  intros Hne. destruct a as [|x a]; [done|].
  destruct (exists_last (l := x :: a)) as (b & y & Hb); [done|].
  exists x, y. split; [done|]. split; [by rewrite Hb, last_row_snoc|].
  split; [left|]. rewrite Hb. apply elem_of_app. right. left.
Qed.

Lemma length_pad_rows a (count : Z) :
  a <> [] -> 0 <= count ->
  length (pad (take 1 a) count) = Z.to_nat count /\
  length (pad (last_row a) count) = Z.to_nat count.
Proof.
  intros Hne _. destruct (first_last_rows a Hne) as (x & y & -> & -> & _).
  by rewrite !pad_singleton, !length_replicate.
Qed.

Lemma length_moving_average bdata (window_size : Z) :
  length (moving_average bdata window_size) = length bdata.
Proof.
  unfold moving_average. destruct (Z.leb_spec window_size 1) as [|Hw]; [done|].
  rewrite length_fmap, length_zip_with, length_drop, length_take, length_cumsum.
  destruct (decide (bdata = [])) as [->|Hne].
  - simpl. rewrite last_row_nil, !pad_nil. simpl. lia.
  - rewrite !length_app.
    destruct (length_pad_rows bdata (window_size `div` 2) Hne) as [-> _];
      [apply Z.div_pos; lia|].
    destruct (length_pad_rows bdata (window_size - window_size `div` 2) Hne) as [_ ->].
    + assert (window_size `div` 2 < window_size) by (apply Z.div_lt; lia). lia.
    + assert (0 <= window_size `div` 2 < window_size)
        by (split; [apply Z.div_pos | apply Z.div_lt]; lia).
      lia.
Qed.

(** Each running sum is the one before it plus the next row. *)
Lemma cumsum_from_step a x (j : nat) b :
  cumsum_from x a !! S j = Some b ->
  exists b' y, cumsum_from x a !! j = Some b' /\ a !! S j = Some y /\ b = eadd b' y.
Proof.
  revert x j. induction a as [|a0 a IH]; intros x j Hb; [done|].
  simpl in Hb. destruct j as [|j].
  - destruct a as [|a1 a]; [done|]. injection Hb as <-. by eexists _, _.
  - apply IH in Hb as (b' & y & Hb' & Hy & ->). by eexists _, _.
Qed.

Lemma cumsum_step a (j : nat) b :
  cumsum a !! S j = Some b ->
  exists b' y, cumsum a !! j = Some b' /\ a !! S j = Some y /\ b = eadd b' y.
Proof.
  destruct a as [|a0 a]; [done|]. simpl. destruct j as [|j].
  - destruct a as [|a1 a]; [done|]. intros [= <-]. by eexists _, _.
  - intros (b' & y & Hb' & Hy & ->)%cumsum_from_step. by eexists _, _.
Qed.

Lemma Forall_pad (P : E -> Prop) (row : list E) (count : Z) :
  Forall P row -> Forall P (pad row count).
Proof.
  intros Hrow. unfold pad. induction (Z.to_nat count) as [|n IH]; simpl; [done|].
  by apply Forall_app.
Qed.

Lemma Forall_last_row (P : E -> Prop) a : Forall P a -> Forall P (last_row a).
Proof. apply Forall_drop. Qed.

(** Blocks cut out of an array that is long enough are full. *)
Lemma reshape_full_blocks (k m : nat) a :
  (m * k <= length a)%nat ->
  Forall (fun block => length block = k) (reshape (replicate m k) a).
Proof.
  revert a. induction m as [|m IH]; intros a Hlen; simpl; [done|].
  constructor.
  - rewrite length_take. lia.
  - apply IH. rewrite length_drop. lia.
Qed.

Lemma lookup_block a (k i : nat) block :
  reshape (replicate (length a / k)%nat k) a !! i = Some block -> length block = k.
Proof.
  intros Hi.
  assert (Hfull : Forall (fun b => length b = k) (reshape (replicate (length a / k)%nat k) a)).
  { apply reshape_full_blocks. rewrite Nat.mul_comm. apply Nat.Div0.mul_div_le. }
  by apply (proj1 (Forall_lookup _ _) Hfull i).
Qed.

Lemma subsample_blocks bdata (k : Z) :
  1 < k ->
  subsample bdata k =
    mean <$> reshape (replicate (length (padded_to_blocks bdata k) / Z.to_nat k)%nat
                                (Z.to_nat k))
                     (padded_to_blocks bdata k).
Proof.
  intros Hk. unfold subsample, padded_to_blocks.
  destruct (Z.leb_spec k 1); [lia|done].
Qed.

Lemma length_padded_to_blocks bdata (k : Z) :
  1 < k ->
  Z.of_nat (length (padded_to_blocks bdata k)) =
    k * ((Z.of_nat (length bdata) + k - 1) `div` k).
Proof.
  intros Hk. unfold padded_to_blocks. set (n := Z.of_nat (length bdata)).
  assert (Hn : 0 <= n) by lia.
  pose proof (Z.mod_pos_bound n k ltac:(lia)) as Hm.
  pose proof (Z.div_mod n k ltac:(lia)) as Hd.
  destruct (Z.eqb_spec (n mod k) 0) as [H0|H0]; simpl.
  - fold n. rewrite H0 in Hd.
    assert ((n + k - 1) `div` k = n `div` k) as ->; [|lia].
    symmetry. apply (Z.div_unique _ _ _ (k - 1)); lia.
  - assert (Hne : bdata <> []) by (intros ->; apply H0; done).
    rewrite length_app.
    destruct (length_pad_rows bdata (k - n mod k) Hne) as [_ ->]; [lia|].
    fold n. rewrite Nat2Z.inj_add, Z2Nat.id by lia. fold n.
    assert ((n + k - 1) `div` k = n `div` k + 1) as ->; [|lia].
    symmetry. apply (Z.div_unique _ _ _ (n mod k - 1)); lia.
Qed.

(** [ceil(n / k)] rows come out of [subsample]. *)
Lemma length_subsample bdata (k : Z) :
  1 < k ->
  Z.of_nat (length (subsample bdata k)) = (Z.of_nat (length bdata) + k - 1) `div` k.
Proof.
  intros Hk. rewrite subsample_blocks by done.
  rewrite length_fmap, length_reshape, length_replicate.
  rewrite Nat2Z.inj_div, Z2Nat.id by lia.
  rewrite length_padded_to_blocks by done.
  rewrite Z.mul_comm, Z.div_mul by lia. done.
Qed.

Lemma length_subsample_id bdata (k : Z) : k <= 1 -> subsample bdata k = bdata.
Proof. intros Hk. unfold subsample. destruct (Z.leb_spec k 1); [done|lia]. Qed.

Lemma length_smoothen bdata (w k : Z) :
  Z.of_nat (length (smoothen bdata w k)) =
    if k <=? 1 then Z.of_nat (length bdata)
    else (Z.of_nat (length bdata) + k - 1) `div` k.
Proof.
  unfold smoothen. destruct (Z.leb_spec k 1).
  - by rewrite length_subsample_id, length_moving_average.
  - by rewrite length_subsample, length_moving_average.
Qed.

End SmootherLength.

(** What the configuration of [render_pdf] makes of [n] samples. *)
Lemma length_smoothen_10_2 {E} `{Elem E} (bdata : list E) :
  length (smoothen bdata 10 2) = ((length bdata + 1) / 2)%nat.
Proof.
  apply Nat2Z.inj. rewrite length_smoothen.
  change (2 <=? 1) with false. cbv iota.
  rewrite Nat2Z.inj_div, Nat2Z.inj_add. f_equal. lia.
Qed.

(** ** The loop over the smoothed samples *)

Lemma count_app {A} (kind : op A -> bool) (l k : list (op A)) :
  count kind (l ++ k) = (count kind l + count kind k)%nat.
Proof. unfold count. by rewrite List.filter_app, length_app. Qed.

(** Blocks of the same size laid end to end. *)
Lemma lookup_concat_blocks {X} (f : nat -> list X) (m : nat) :
  (forall i, length (f i) = m) ->
  forall n a i j, (i < n)%nat -> (j < m)%nat ->
    concat (f <$> seq a n) !! (i * m + j)%nat = f (a + i)%nat !! j.
Proof.
  intros Hlen n. induction n as [|n IH]; intros a i j Hi Hj; [lia|].
  simpl. destruct i as [|i].
  - rewrite lookup_app_l by (rewrite Hlen; lia). by rewrite Nat.add_0_r.
  - rewrite lookup_app_r by (rewrite Hlen; lia). rewrite Hlen.
    replace (S i * m + j - m)%nat with (i * m + j)%nat by lia.
    rewrite IH by lia. by replace (a + S i)%nat with (S a + i)%nat by lia.
Qed.

Lemma count_concat_blocks {A} (kind : op A -> bool) (f : nat -> list (op A)) (c : nat) :
  (forall i, count kind (f i) = c) ->
  forall n a, count kind (concat (f <$> seq a n)) = (n * c)%nat.
Proof.
  intros Hc n. induction n as [|n IH]; intros a; [done|].
  simpl. rewrite count_app, Hc, IH. done.
Qed.

Section Loop.
Context {A : Type} `{Scalar A}.
Implicit Types (P : list (A * A)) (Pr : list A) (t : A).

Lemma draw_sample_pressure_0 t P Pr :
  draw_sample true t P Pr 0 =
    [set_line_width (pymax (fmul (fmul t width_scale) (item Pr 0)) (lit 0.1));
     move_to (default (of_int 0, of_int 0) (P !! 0%nat)).1
             (default (of_int 0, of_int 0) (P !! 0%nat)).2].
Proof. done. Qed.

Lemma draw_sample_pressure_S t P Pr r :
  draw_sample true t P Pr (S r) =
    [set_line_width (pymax (fmul (fmul t width_scale) (item Pr (S r))) (lit 0.1));
     line_to (default (of_int 0, of_int 0) (P !! S r)).1
             (default (of_int 0, of_int 0) (P !! S r)).2;
     stroke;
     move_to (default (of_int 0, of_int 0) (P !! S r)).1
             (default (of_int 0, of_int 0) (P !! S r)).2].
Proof. done. Qed.

Lemma draw_sample_plain_0 t P Pr :
  draw_sample false t P Pr 0 =
    [move_to (default (of_int 0, of_int 0) (P !! 0%nat)).1
             (default (of_int 0, of_int 0) (P !! 0%nat)).2].
Proof. done. Qed.

Lemma draw_sample_plain_S t P Pr r :
  draw_sample false t P Pr (S r) =
    [line_to (default (of_int 0, of_int 0) (P !! S r)).1
             (default (of_int 0, of_int 0) (P !! S r)).2].
Proof. done. Qed.

(** The loop body seen from the second sample on, as a function of the
    number of samples before it. *)
Lemma loop_from_1 (hp : bool) t P Pr n :
  draw_sample hp t P Pr <$> seq 1 n = (fun i => draw_sample hp t P Pr (S i)) <$> seq 0 n.
Proof. by rewrite <- (fmap_S_seq 0), <- list_fmap_compose. Qed.

Lemma draw_unfold t ty pts prs :
  draw t ty pts prs =
    concat (draw_sample (ty =? 5) t (smoothen (scaled pts) average_win_size n_subsample)
                        (smoothen prs average_win_size n_subsample)
            <$> seq 0 (length (smoothen (scaled pts) average_win_size n_subsample))).
Proof. done. Qed.

(** With pressure: a width and a move for the first sample, then a width, a
    line, a commit and a move for each further one. *)
Lemma draw_pressure t pts prs :
  draw t 5 pts prs =
    match length (smoothen (scaled pts) average_win_size n_subsample) with
    | O => []
    | S n =>
      draw_sample true t (smoothen (scaled pts) average_win_size n_subsample)
                  (smoothen prs average_win_size n_subsample) 0
      ++ concat ((fun i =>
                    draw_sample true t
                      (smoothen (scaled pts) average_win_size n_subsample)
                      (smoothen prs average_win_size n_subsample) (S i))
                 <$> seq 0 n)
    end.
Proof.
  rewrite draw_unfold. change (5 =? 5) with true.
  destruct (length _) as [|n]; [done|].
  change (seq 0 (S n)) with (0%nat :: seq 1 n).
  rewrite fmap_cons, loop_from_1. done.
Qed.

(** Without pressure: a move, then a line for each further sample. *)
Lemma draw_plain t ty pts prs :
  ty <> 5 ->
  draw t ty pts prs =
    match length (smoothen (scaled pts) average_win_size n_subsample) with
    | O => []
    | S n =>
      draw_sample false t (smoothen (scaled pts) average_win_size n_subsample)
                  (smoothen prs average_win_size n_subsample) 0
      ++ concat ((fun i =>
                    draw_sample false t
                      (smoothen (scaled pts) average_win_size n_subsample)
                      (smoothen prs average_win_size n_subsample) (S i))
                 <$> seq 0 n)
    end.
Proof.
  intros Hty. rewrite draw_unfold.
  destruct (Z.eqb_spec ty 5) as [|_]; [done|].
  destruct (length _) as [|n]; [done|].
  change (seq 0 (S n)) with (0%nat :: seq 1 n).
  rewrite fmap_cons, loop_from_1. done.
Qed.

Lemma pressure_loop_lookup t P Pr n i j :
  (i < n)%nat -> (j < 4)%nat ->
  (draw_sample true t P Pr 0
   ++ concat ((fun i => draw_sample true t P Pr (S i)) <$> seq 0 n)) !! (2 + i * 4 + j)%nat
  = draw_sample true t P Pr (S i) !! j.
Proof.
  intros Hi Hj. rewrite lookup_app_r by (simpl; lia).
  replace (2 + i * 4 + j - length (draw_sample true t P Pr 0))%nat
    with (i * 4 + j)%nat by (simpl; lia).
  by rewrite (lookup_concat_blocks _ 4).
Qed.

Lemma pressure_loop_count (kind : op A -> bool) t P Pr n c :
  (forall i, count kind (draw_sample true t P Pr (S i)) = c) ->
  count kind (draw_sample true t P Pr 0
              ++ concat ((fun i => draw_sample true t P Pr (S i)) <$> seq 0 n))
  = (count kind (draw_sample true t P Pr 0) + n * c)%nat.
Proof. intros Hc. by rewrite count_app, (count_concat_blocks _ _ c). Qed.

(** ** Decoding a row *)

Lemma reshape_rows_inr (a : list A) (cols : nat) d :
  reshape_rows a cols = inr d ->
  (length a mod cols = 0)%nat /\ length d = (length a / cols)%nat.
Proof.
  unfold reshape_rows. destruct (Nat.eqb_spec (length a mod cols) 0); [|done].
  intros [= <-]. by rewrite length_reshape, length_replicate.
Qed.

Lemma decode_inr row pts prs :
  decode row = inr (pts, prs) ->
  length (matrixValues row) = 9%nat /\
  (length (points row) mod 6 = 0)%nat /\
  length pts = (length (points row) / 6)%nat /\
  length prs = length pts.
Proof.
  unfold decode, reshape_3_3.
  destruct (Nat.eqb_spec (length (matrixValues row)) 9) as [H9|]; [|done].
  destruct (reshape_rows (points row) 6) as [e|d] eqn:Hd; [done|].
  apply reshape_rows_inr in Hd as [Hmod Hlen].
  intros [= <- <-]. by rewrite !length_fmap.
Qed.

Lemma length_scaled pts : length (scaled pts) = length pts.
Proof. unfold scaled. by rewrite length_fmap. Qed.

(** The two smoothed arrays the loop indexes have the same length. *)
Lemma smoothed_same_length row pts prs :
  decode row = inr (pts, prs) ->
  length (smoothen prs average_win_size n_subsample) =
  length (smoothen (scaled pts) average_win_size n_subsample).
Proof.
  intros (_ & _ & _ & Hlen)%decode_inr. unfold average_win_size, n_subsample.
  by rewrite !length_smoothen_10_2, length_scaled, Hlen.
Qed.

End Loop.

(** ** Pressure strokes *)

Section PressureStrokes.
Context {A : Type} `{Scalar A}.


(** C9: in a stroke of shape type 5, for every index [r >= 1] of the
    smoothed sequence, the segment from smoothed point [r - 1] to smoothed
    point [r] is committed at the width [max(thickness * 0.3 * pressure[r],
    0.1)] computed from the smoothed pressure at its end point [r]: the
    canvas receives, one after the other, the move to point [r - 1] (or has
    the pen there), that width, the line to point [r] and the commit. *)
Theorem segment_width_from_endpoint_pressure (row : shape A) pts prs (r : nat) :
  decode row = inr (pts, prs) ->
  shapeType row = 5 ->
  let P := smoothen (scaled pts) average_win_size n_subsample in
  let Pr := smoothen prs average_win_size n_subsample in
  let ops := draw (thickness row) (shapeType row) pts prs in
  (1 <= r < length P)%nat ->
  exists p0 p1 w,
    P !! (r - 1)%nat = Some p0 /\ P !! r = Some p1 /\ Pr !! r = Some w /\
    ops !! (4 * r - 3)%nat = Some (move_to p0.1 p0.2) /\
    ops !! (4 * r - 2)%nat =
      Some (set_line_width (pymax (fmul (fmul (thickness row) (lit 0.3)) w) (lit 0.1))) /\
    ops !! (4 * r - 1)%nat = Some (line_to p1.1 p1.2) /\
    ops !! (4 * r)%nat = Some stroke.
Proof.
  intros Hdec Hty P Pr ops Hr.
  pose proof (smoothed_same_length row pts prs Hdec) as Hlen. fold P Pr in Hlen.
  destruct (lookup_lt_is_Some_2 P (r - 1)) as [p0 Hp0]; [lia|].
  destruct (lookup_lt_is_Some_2 P r) as [p1 Hp1]; [lia|].
  destruct (lookup_lt_is_Some_2 Pr r) as [w Hw]; [lia|].
  exists p0, p1, w. do 3 (split; [done|]).
  subst ops. rewrite Hty, draw_pressure. fold P Pr.
  destruct (length P) as [|n] eqn:HP; [lia|].
  destruct r as [|i]; [lia|].
  assert (Hi : (i < n)%nat) by lia.
  replace (4 * S i - 3)%nat with (1 + i * 4)%nat by lia.
  replace (4 * S i - 2)%nat with (2 + i * 4 + 0)%nat by lia.
  replace (4 * S i - 1)%nat with (2 + i * 4 + 1)%nat by lia.
  replace (4 * S i)%nat with (2 + i * 4 + 2)%nat by lia.
  rewrite !pressure_loop_lookup by lia.
  rewrite draw_sample_pressure_S. unfold item. rewrite Hp1, Hw.
  split; [|done].
  replace (S i - 1)%nat with i in Hp0 by lia.
  destruct i as [|i].
  - rewrite draw_sample_pressure_0, Hp0. reflexivity.
  - replace (1 + S i * 4)%nat with (2 + i * 4 + 3)%nat by lia.
    rewrite pressure_loop_lookup by lia.
    rewrite draw_sample_pressure_S. rewrite Hp0. done.
Qed.

End PressureStrokes.


Lemma segment_width_from_endpoint_pressure_witness :
  exists p0 p1 w,
    smoothen (scaled blue_pen_points) average_win_size n_subsample !! 1%nat = Some p0 /\
    smoothen (scaled blue_pen_points) average_win_size n_subsample !! 2%nat = Some p1 /\
    smoothen blue_pen_pressure average_win_size n_subsample !! 2%nat = Some w /\
    draw 2%float 5 blue_pen_points blue_pen_pressure !! 5%nat = Some (move_to p0.1 p0.2) /\
    draw 2%float 5 blue_pen_points blue_pen_pressure !! 6%nat =
      Some (set_line_width (pymax (fmul (fmul 2%float (lit 0.3)) w) (lit 0.1))) /\
    draw 2%float 5 blue_pen_points blue_pen_pressure !! 7%nat = Some (line_to p1.1 p1.2) /\
    draw 2%float 5 blue_pen_points blue_pen_pressure !! 8%nat = Some stroke.
Proof.
  apply (segment_width_from_endpoint_pressure blue_pen blue_pen_points blue_pen_pressure 2);
    [vm_compute; reflexivity | reflexivity | vm_compute; lia].
Defined.

(** ** Malformed rows *)

Section Malformed.
Context {A : Type} `{Scalar A}.

Lemma decode_ok (row : shape A) :
  length (matrixValues row) = 9%nat ->
  (length (points row) mod 6 = 0)%nat ->
  exists pts prs, decode row = inr (pts, prs).
Proof.
  intros H9 H6. unfold decode, reshape_3_3, reshape_rows.
  rewrite H9, H6. simpl. eauto.
Qed.

Lemma decode_ragged (row : shape A) :
  (length (points row) mod 6 <> 0)%nat ->
  decode row =
    inl (if (length (matrixValues row) =? 9)%nat
         then ValueError (length (points row)) [-1; 6]
         else ValueError (length (matrixValues row)) [3; 3]).
Proof.
  intros H6. unfold decode, reshape_3_3, reshape_rows.
  destruct (Nat.eqb_spec (length (matrixValues row)) 9); [|done].
  destruct (Nat.eqb_spec (length (points row) mod 6) 0); done.
Qed.

Lemma render_shape_raises st (row : shape A) e :
  decode row = inl e -> render_shape st row = inl e.
Proof. intros Hd. unfold render_shape. by rewrite Hd. Qed.

Lemma render_shapes_raises (row : shape A) e rows :
  decode row = inl e -> row ∈ rows ->
  forall st, exists ops e', render_shapes st rows = (ops, inl e').
Proof.
  intros Hd. induction rows as [|row' rows IH]; intros Hin st.
  - by apply elem_of_nil in Hin.
  - simpl. destruct (render_shape st row') as [e'|[st' ops]] eqn:Hr; [eauto|].
    apply elem_of_cons in Hin as [->|Hin].
    + by rewrite (render_shape_raises _ _ e) in Hr.
    + destruct (IH Hin st') as (ops' & e' & ->). eauto.
Qed.

Lemma render_pages_raises db (row : shape A) e page pages :
  decode row = inl e -> page ∈ pages -> row ∈ db page ->
  forall st, exists ops e', render_pages db st pages = (ops, inl e').
Proof.
  intros Hd Hpage Hrow. induction pages as [|page' pages IH]; intros st.
  - by apply elem_of_nil in Hpage.
  - simpl. unfold render_page.
    destruct (render_shapes st (db page')) as [ops [e'|st']] eqn:Hr; [eauto|].
    apply elem_of_cons in Hpage as [->|Hpage].
    + destruct (render_shapes_raises row e (db page') Hd Hrow st) as (? & ? & Hr').
      rewrite Hr' in Hr. done.
    + destruct (IH Hpage st') as (ops' & e' & ->). eauto.
Qed.

(** C6: a row whose point buffer does not hold a multiple of 6 floats is
    refused: [decode] raises numpy's [ValueError] and returns no samples, and
    the exception ends the stroke, the page and the note that hold the row. *)
Theorem decode_refuses_partial_sample (row : shape A) :
  (length (points row) mod 6 <> 0)%nat ->
  exists e,
    decode row = inl e /\
    (length (matrixValues row) = 9%nat ->
     e = ValueError (length (points row)) [-1; 6]) /\
    (forall st, render_shape st row = inl e) /\
    (forall db (d : descriptor) page,
       page ∈ pages d -> row ∈ db page ->
       exists e', (render_pdf db d).2 = Some e').
Proof.
  intros H6. eexists. split; [by apply decode_ragged|].
  split; [by intros ->|].
  split; [intros st; apply render_shape_raises; by apply decode_ragged|].
  intros db d page Hpage Hrow. unfold render_pdf.
  destruct (render_pages_raises db row _ page (pages d) (decode_ragged row H6)
              Hpage Hrow initial_paint) as (ops & e' & ->).
  simpl. eauto.
Qed.

End Malformed.

Lemma decode_refuses_partial_sample_witness :
  exists e,
    decode ragged = inl e /\
    (length (matrixValues ragged) = 9%nat -> e = ValueError (length (points ragged)) [-1; 6]) /\
    (forall st, render_shape st ragged = inl e) /\
    (forall db (d : descriptor) page,
       page ∈ pages d -> ragged ∈ db page ->
       exists e', (render_pdf db d).2 = Some e').
Proof. apply (decode_refuses_partial_sample ragged). vm_compute. lia. Defined.

(** ** The tracked paint attributes *)

Lemma filter_concat_nil {X Y} (kind : Y -> bool) (f : X -> list Y) (l : list X) :
  (forall x, List.filter kind (f x) = []) -> List.filter kind (concat (f <$> l)) = [].
Proof.
  intros Hf. induction l as [|x l IH]; [done|].
  change (concat (f <$> x :: l)) with (f x ++ concat (f <$> l)).
  by rewrite List.filter_app, Hf, IH.
Qed.



Section Paint.
Context {A : Type} `{Scalar A}.
Implicit Types (st : paint A) (row : shape A).

Lemma render_shape_ok st row pts prs :
  decode row = inr (pts, prs) ->
  render_shape st row =
    inr (track st row,
         paint_ops st row ++ draw (thickness row) (shapeType row) pts prs).
Proof.
  intros Hd. unfold render_shape, track, paint_ops. rewrite Hd.
  destruct (set_thickness st (thickness row)) as [st1 ops1]. simpl.
  destruct (set_color st1 (channels (color row))) as [st2 ops2]. simpl.
  by rewrite <- app_assoc.
Qed.

(** The shape of the calls that apply a change. *)
Lemma paint_ops_eq st row :
  paint_ops st row =
    (if fne (prev_thickness st) (thickness row)
     then [stroke; set_line_width (fmul (thickness row) width_scale)] else [])
    ++ (if bool_decide (channels (color row) <> prev_color st)
        then [stroke;
              set_source_rgb
                (fdiv (of_int (Z.land (Z.shiftr (color row) 16) 255)) (of_int 255))
                (fdiv (of_int (Z.land (Z.shiftr (color row) 8) 255)) (of_int 255))
                (fdiv (of_int (Z.land (color row) 255)) (of_int 255))]
        else []).
Proof.
  unfold paint_ops, set_thickness, set_color.
  destruct (fne _ _); simpl; destruct (bool_decide _); done.
Qed.

Lemma track_color st row : prev_color (track st row) = channels (color row).
Proof.
  unfold track, set_thickness, set_color.
  destruct (fne _ _); simpl; case_bool_decide as Hc; simpl; try done;
    by apply dec_stable in Hc.
Qed.

Lemma track_thickness st row :
  prev_thickness (track st row) =
    if fne (prev_thickness st) (thickness row) then thickness row else prev_thickness st.
Proof.
  unfold track, set_thickness, set_color.
  destruct (fne _ _); simpl; case_bool_decide; done.
Qed.



(** What the loop never sends: a colour; and, without pressure, a width or a
    commit. *)
Lemma draw_no_color t ty pts prs :
  List.filter is_set_source_rgb (draw t ty pts prs) = [].
Proof.
  rewrite draw_unfold. apply filter_concat_nil.
  intros r. by destruct (ty =? 5), r.
Qed.



Lemma render_shape_inr st row st1 ops1 :
  render_shape st row = inr (st1, ops1) ->
  exists pts prs,
    decode row = inr (pts, prs) /\ st1 = track st row /\
    ops1 = paint_ops st row ++ draw (thickness row) (shapeType row) pts prs.
Proof.
  intros Hr. destruct (decode row) as [e|[pts prs]] eqn:Hd.
  - by rewrite (render_shape_raises _ _ e) in Hr.
  - rewrite (render_shape_ok _ _ pts prs) in Hr by done.
    injection Hr as <- <-. eauto.
Qed.

(** The rows of a page, one after the other: the values tracked before a
    row are those left by the rows before it. *)
Lemma render_shapes_inr st rows ops st' :
  render_shapes st rows = (ops, inr st') ->
  st' = foldl track st rows /\
  forall pre row post, rows = pre ++ row :: post ->
    exists pts prs before after,
      decode row = inr (pts, prs) /\
      ops = before
            ++ (paint_ops (foldl track st pre) row
                ++ draw (thickness row) (shapeType row) pts prs)
            ++ after.
Proof.
  revert st ops. induction rows as [|row0 rows IH]; intros st ops Hr.
  - injection Hr as <- <-. split; [done|]. by intros [|??] ??.
  - simpl in Hr. destruct (render_shape st row0) as [e|[st1 ops1]] eqn:H0; [done|].
    destruct (render_shapes st1 rows) as [ops' r] eqn:Hrows.
    injection Hr as <- ->.
    apply render_shape_inr in H0 as (pts0 & prs0 & Hd0 & -> & ->).
    destruct (IH _ _ Hrows) as [-> Hpost]. split; [done|].
    intros [|row1 pre] row post Heq.
    + injection Heq as <- <-. exists pts0, prs0, [], ops'. by rewrite app_nil_l.
    + injection Heq as <- ->.
      destruct (Hpost pre row post eq_refl) as (pts & prs & before & after & Hd & ->).
      exists pts, prs,
        ((paint_ops st row0 ++ draw (thickness row0) (shapeType row0) pts0 prs0) ++ before),
        after.
      split; [done|]. by rewrite <- !app_assoc.
Qed.




Lemma render_page_inr st rows ops st' :
  render_page st rows = (ops, inr st') ->
  exists ops0, render_shapes st rows = (ops0, inr st') /\ ops = ops0 ++ [stroke; show_page].
Proof.
  unfold render_page. destruct (render_shapes st rows) as [ops0 [e|st1]]; [done|].
  intros [= <- <-]. eauto.
Qed.

End Paint.

(** ** Pages *)

Section Pages.
Context {A : Type} `{Scalar A}.
Implicit Types (st : paint A) (row : shape A) (db : string -> list (shape A)).

Lemma render_pages_inr db st pgs ops st' :
  render_pages db st pgs = (ops, inr st') ->
  st' = foldl track st (concat (db <$> pgs)).
Proof.
  revert st ops. induction pgs as [|pg pgs IH]; intros st ops Hr.
  - by injection Hr as <- <-.
  - simpl in Hr. destruct (render_page st (db pg)) as [ops0 [e|st1]] eqn:Hp; [done|].
    destruct (render_pages db st1 pgs) as [ops' r] eqn:Hps.
    injection Hr as <- ->.
    apply render_page_inr in Hp as (ops00 & Hp & _).
    apply render_shapes_inr in Hp as [-> _].
    rewrite (IH _ _ Hps). simpl. by rewrite foldl_app.
Qed.

Lemma render_pages_snoc db st pgs pg ops1 st1 :
  render_pages db st pgs = (ops1, inr st1) ->
  render_pages db st (pgs ++ [pg]) =
    ((ops1 ++ (render_page st1 (db pg)).1), (render_page st1 (db pg)).2).
Proof.
  revert st ops1. induction pgs as [|pg0 pgs IH]; intros st ops1 Hr.
  - injection Hr as <- <-. simpl.
    destruct (render_page st (db pg)) as [ops [e|st2]]; simpl; [done|].
    by rewrite app_nil_r.
  - simpl in Hr. simpl.
    destruct (render_page st (db pg0)) as [ops0 [e|st0]]; [done|].
    destruct (render_pages db st0 pgs) as [ops' r] eqn:Hps.
    injection Hr as <- ->. rewrite (IH _ _ Hps). by rewrite app_assoc.
Qed.

Lemma render_page_first st row rows pts prs :
  decode row = inr (pts, prs) ->
  exists rest,
    (render_page st (row :: rows)).1 =
      paint_ops st row ++ draw (thickness row) (shapeType row) pts prs ++ rest.
Proof.
  intros Hd. unfold render_page. cbn [render_shapes].
  rewrite (render_shape_ok st row pts prs Hd).
  destruct (render_shapes (track st row) rows) as [ops' [e|st']]; cbn [fst].
  - exists ops'. by rewrite <- app_assoc.
  - exists (ops' ++ [stroke; show_page]). by rewrite <- !app_assoc.
Qed.

End Pages.

(** ** The colour of a stroke *)

Lemma channel_range (c : Z) (n : Z) : 0 <= n -> 0 <= Z.land (Z.shiftr c n) 255 <= 255.
Proof.
  intros Hn. change 255 with (Z.ones 8) at 1 2. rewrite !Z.land_ones by lia.
  change (2 ^ 8) with 256.
  pose proof (Z.mod_pos_bound (Z.shiftr c n) 256 ltac:(lia)). lia.
Qed.

Section Colour.
Context {A : Type} `{Scalar A}.

(** C1, as the code has it: the packed colour is cut into
    [byte0 = color & 0xFF], [byte1 = (color >> 8) & 0xFF] and
    [byte2 = (color >> 16) & 0xFF], each between 0 and 255; this triple is
    what is tracked, and when it differs from the tracked one the canvas
    receives exactly one colour, with red [byte2 / 255], green [byte1 / 255]
    and blue [byte0 / 255]; when it does not differ the canvas receives no
    colour. *)
Theorem color_applied_high_byte_as_red (st : paint A) (row : shape A) pts prs :
  decode row = inr (pts, prs) ->
  let byte0 := Z.land (color row) 0xFF in
  let byte1 := Z.land (Z.shiftr (color row) 8) 0xFF in
  let byte2 := Z.land (Z.shiftr (color row) 16) 0xFF in
  (0 <= byte0 <= 255 /\ 0 <= byte1 <= 255 /\ 0 <= byte2 <= 255) /\
  exists st' ops,
    render_shape st row = inr (st', ops) /\
    prev_color st' = (byte0, byte1, byte2) /\
    List.filter is_set_source_rgb ops =
      if bool_decide ((byte0, byte1, byte2) <> prev_color st)
      then [set_source_rgb (fdiv (of_int byte2) (of_int 255))
                           (fdiv (of_int byte1) (of_int 255))
                           (fdiv (of_int byte0) (of_int 255))]
      else [].
Proof.
  intros Hd byte0 byte1 byte2. split.
  - pose proof (channel_range (color row) 0 ltac:(lia)) as H0.
    rewrite Z.shiftr_0_r in H0.
    pose proof (channel_range (color row) 8 ltac:(lia)).
    pose proof (channel_range (color row) 16 ltac:(lia)). done.
  - eexists _, _. split; [by apply render_shape_ok|].
    split; [apply track_color|].
    rewrite List.filter_app, draw_no_color, app_nil_r, paint_ops_eq, List.filter_app.
    change (channels (color row)) with (byte0, byte1, byte2).
    destruct (fne _ _), (bool_decide _); done.
Qed.

End Colour.

Lemma color_applied_high_byte_as_red_witness :
  exists st' ops,
    render_shape initial_paint blue_line = inr (st', ops) /\
    prev_color st' = (255, 0, 0) /\
    List.filter is_set_source_rgb ops = [set_source_rgb 0%float 0%float 1%float].
Proof.
  destruct (color_applied_high_byte_as_red initial_paint blue_line
              blue_line_points blue_line_pressure)
    as (_ & st' & ops & Hr & Hc & Hf); [vm_compute; reflexivity|].
  exists st', ops. split; [exact Hr|]. split; [exact Hc|]. exact Hf.
Defined.

(** The red channel sent for the packed colour [0x0000FF] is 0, while
    [(0x0000FF & 0xFF) / 255] is 1. *)
Lemma red_channel_is_not_low_byte :
  exists st' ops,
    render_shape initial_paint blue_line = inr (st', ops) /\
    List.filter is_set_source_rgb ops = [set_source_rgb 0%float 0%float 1%float] /\
    fdiv (of_int (Z.land 0x0000FF 0xFF)) (of_int 255) = 1%float /\
    fne 0%float (fdiv (of_int (Z.land 0x0000FF 0xFF)) (of_int 255)) = true.
Proof. vm_compute. eexists _, _. repeat split. Qed.

(** ** Commits and changes of the tracked attributes *)

Section Flush.
Context {A : Type} `{Scalar A}.


End Flush.



(** ** The tracked attributes from page to page *)

Section Carry.
Context {A : Type} `{Scalar A}.

(** C3, as the code has it.  The tracked colour and thickness are set once,
    before the first page, to [(0, 0, 0)] and [0], and are carried from page
    to page: after any pages they are what the strokes of all those pages,
    taken in order, leave behind; the next page is rendered from these
    values; and its first stroke commits and sets the width only if its
    thickness differs from the carried one, commits and sets the colour only
    if its channels differ from the carried ones. *)
Theorem paint_state_carried_across_pages
    (db : string -> list (shape A)) (d : descriptor) pgs pg ops1 st1 :
  render_pages db initial_paint pgs = (ops1, inr st1) ->
  (render_pdf db d).1 = setup ++ (render_pages db (Paint (0, 0, 0) (of_int 0)) (pages d)).1 /\
  st1 = foldl track initial_paint (concat (db <$> pgs)) /\
  render_pages db initial_paint (pgs ++ [pg]) =
    (ops1 ++ (render_page st1 (db pg)).1, (render_page st1 (db pg)).2) /\
  (forall row rows pts prs,
     db pg = row :: rows -> decode row = inr (pts, prs) ->
     exists rest,
       (render_page st1 (db pg)).1 =
         ((if fne (prev_thickness st1) (thickness row)
           then [stroke; set_line_width (fmul (thickness row) width_scale)]
           else [])
          ++ (if bool_decide (channels (color row) <> prev_color st1)
              then [stroke;
                    set_source_rgb
                      (fdiv (of_int (Z.land (Z.shiftr (color row) 16) 255)) (of_int 255))
                      (fdiv (of_int (Z.land (Z.shiftr (color row) 8) 255)) (of_int 255))
                      (fdiv (of_int (Z.land (color row) 255)) (of_int 255))]
              else []))
         ++ draw (thickness row) (shapeType row) pts prs ++ rest).
Proof.
  intros Hr. split; [|split; [|split]].
  - unfold render_pdf, initial_paint.
    by destruct (render_pages db _ (pages d)) as [ops r].
  - by eapply render_pages_inr.
  - by apply render_pages_snoc.
  - intros row rows pts prs -> Hd.
    destruct (render_page_first st1 row rows pts prs Hd) as [rest ->].
    exists rest. by rewrite paint_ops_eq.
Qed.

End Carry.

Lemma paint_state_carried_across_pages_witness :
  render_pages (fun _ => [blue_line]) initial_paint (["p1"%string] ++ ["p2"%string]) =
    ((render_page initial_paint [blue_line]).1
       ++ (render_page (Paint (255, 0, 0) 2%float) [blue_line]).1,
     (render_page (Paint (255, 0, 0) 2%float) [blue_line]).2).
Proof.
  destruct (paint_state_carried_across_pages (fun _ => [blue_line])
              (Descriptor "note" ["p1"%string; "p2"%string]) ["p1"%string] "p2"%string
              (render_page initial_paint [blue_line]).1 (Paint (255, 0, 0) 2%float))
    as (_ & _ & Hsnoc & _); [vm_compute; reflexivity|].
  exact Hsnoc.
Defined.

(** Two pages holding the same blue line: the second page starts with the
    move to the first sample; no commit comes first, and neither the width nor
    the colour is set on it. *)
Lemma second_page_sets_nothing :
  exists page1 page2,
    render_pdf (fun _ => [blue_line]) (Descriptor "note" ["p1"%string; "p2"%string])
    = (setup ++ page1 ++ page2, None) /\
    page1 = [stroke; set_line_width 0.6; stroke; set_source_rgb 0 0 1;
             move_to 198 198; line_to 257.4 257.4; stroke; show_page]%float /\
    page2 = [move_to 198 198; line_to 257.4 257.4; stroke; show_page]%float /\
    count is_set page2 = 0%nat.
Proof. eexists _, _. repeat split. Qed.

(** ** A line of three samples *)

(** C2, as the code has it: a page holding one stroke of packed colour
    [0x0000FF], thickness 2.0 and shape type 1 with three samples sends to
    the canvas, in this order: a commit, the width 0.6, a commit, the colour
    (0, 0, 1), a move to the first and one line to the second of the two
    points the three samples are smoothed and block-averaged into, the commit
    that ends the page, and the end of the page. *)
Theorem three_sample_line_trace (pts mat : list float) (note page : string) :
  length pts = 18%nat ->
  length mat = 9%nat ->
  exists pts' prs' x0 y0 x1 y1,
    decode (Shape pts mat 2%float 1 0x0000FF) = inr (pts', prs') /\
    length pts' = 3%nat /\
    smoothen (scaled pts') average_win_size n_subsample = [(x0, y0); (x1, y1)] /\
    render_pdf (fun _ => [Shape pts mat 2%float 1 0x0000FF]) (Descriptor note [page]) =
      (setup ++ [stroke; set_line_width 0.6%float;
                 stroke; set_source_rgb 0%float 0%float 1%float;
                 move_to x0 y0; line_to x1 y1;
                 stroke; show_page],
       None).
Proof.
  intros Hpts Hmat. set (row := Shape pts mat 2%float 1 0x0000FF).
  destruct (decode_ok row) as (pts' & prs' & Hd); [done|by simpl; rewrite Hpts|].
  destruct (decode_inr row pts' prs' Hd) as (_ & _ & Hlen & _).
  simpl in Hlen. rewrite Hpts in Hlen. change (18 / 6)%nat with 3%nat in Hlen.
  pose proof (length_smoothen_10_2 (scaled pts')) as HN.
  rewrite length_scaled, Hlen in HN. change ((3 + 1) / 2)%nat with 2%nat in HN.
  pose proof (draw_plain 2%float 1 pts' prs' ltac:(done)) as Hdraw.
  unfold average_win_size, n_subsample in Hdraw. rewrite HN in Hdraw.
  destruct (smoothen (scaled pts') 10 2) as [|[x0 y0] [|[x1 y1] [|??]]] eqn:HP;
    try done.
  exists pts', prs', x0, y0, x1, y1. do 3 (split; [done|]).
  unfold render_pdf. cbn [pages render_pages]. unfold render_page. cbn [render_shapes].
  rewrite (render_shape_ok initial_paint row pts' prs' Hd).
  change (thickness row) with 2%float. change (shapeType row) with 1.
  rewrite Hdraw. reflexivity.
Qed.

Lemma three_sample_line_trace_witness :
  exists x0 y0 x1 y1,
    render_pdf (fun _ => [blue_line]) (Descriptor "note" ["page"%string]) =
      (setup ++ [stroke; set_line_width 0.6%float;
                 stroke; set_source_rgb 0%float 0%float 1%float;
                 move_to x0 y0; line_to x1 y1;
                 stroke; show_page],
       None).
Proof.
  destruct (three_sample_line_trace three_samples identity_matrix "note" "page")
    as (pts' & prs' & x0 & y0 & x1 & y1 & _ & _ & _ & Hr); [reflexivity|reflexivity|].
  exists x0, y0, x1, y1. exact Hr.
Defined.

(** The page of the blue line holds one line, not two, and three commits,
    not one. *)
Lemma three_samples_give_one_line :
  count is_line_to
    (render_pdf (fun _ => [blue_line]) (Descriptor "note" ["page"%string])).1 = 1%nat /\
  count is_stroke
    (render_pdf (fun _ => [blue_line]) (Descriptor "note" ["page"%string])).1 = 3%nat /\
  (render_pdf (fun _ => [blue_line]) (Descriptor "note" ["page"%string])).1 =
    setup ++ [stroke; set_line_width 0.6; stroke; set_source_rgb 0 0 1;
              move_to 198 198; line_to 257.4 257.4; stroke; show_page]%float.
Proof. repeat split. Qed.

(** ** Exact arithmetic: an average stays between the bounds of its input *)

Section Range.
Context {E : Type} `{Elem E} (proj : E -> Q).
Hypothesis proj_add : forall a b, (proj (eadd a b) == proj a + proj b)%Q.
Hypothesis proj_sub : forall a b, (proj (esub a b) == proj a - proj b)%Q.
Hypothesis proj_div : forall a n, (proj (ediv a n) == proj a / inject_Z n)%Q.
Variables lo hi : Q.
Implicit Types (a bdata : list E).

(** The difference of two running sums [m] rows apart is a sum of [m] rows. *)
Lemma cumsum_window a (m i : nat) x y :
  Forall (within proj lo hi) a ->
  cumsum a !! i = Some x -> cumsum a !! (i + m)%nat = Some y ->
  (inject_Z (Z.of_nat m) * lo <= proj y - proj x <= inject_Z (Z.of_nat m) * hi)%Q.
Proof.
  intros Ha Hx. revert y. induction m as [|m IH]; intros y Hy.
  - rewrite Nat.add_0_r, Hx in Hy. injection Hy as <-.
    change (inject_Z (Z.of_nat 0)) with 0%Q. lra.
  - replace (i + S m)%nat with (S (i + m)) in Hy by lia.
    apply cumsum_step in Hy as (y' & z & Hy' & Hz & ->).
    specialize (IH y' Hy').
    pose proof (proj1 (Forall_lookup _ _) Ha _ _ Hz) as Hzr. unfold within in Hzr.
    rewrite Nat2Z.inj_succ, <- Z.add_1_r, inject_Z_plus.
    change (inject_Z 1) with 1%Q.
    pose proof (proj_add y' z) as Hadd.
    set (M := inject_Z (Z.of_nat m)) in *.
    rewrite !Qmult_plus_distr_l, !Qmult_1_l.
    generalize dependent (M * lo)%Q. generalize dependent (M * hi)%Q.
    intros. lra.
Qed.

Lemma quotient_within (x : E) (d : Q) (n : Z) :
  0 < n ->
  (proj x == d / inject_Z n)%Q ->
  (inject_Z n * lo <= d <= inject_Z n * hi)%Q ->
  within proj lo hi x.
Proof.
  intros Hn Hx [Hlo Hhi]. unfold within. rewrite Hx.
  assert (0 < inject_Z n)%Q by (change 0%Q with (inject_Z 0); by rewrite <- Zlt_Qlt).
  split.
  - apply Qle_shift_div_l; [done|]. by rewrite Qmult_comm.
  - apply Qle_shift_div_r; [done|]. by rewrite Qmult_comm.
Qed.

Lemma moving_average_within bdata (window_size : Z) :
  Forall (within proj lo hi) bdata ->
  Forall (within proj lo hi) (moving_average bdata window_size).
Proof.
  intros Hb. unfold moving_average.
  destruct (Z.leb_spec window_size 1) as [|Hw]; [done|].
  set (padded := pad (take 1 bdata) _ ++ bdata ++ pad (last_row bdata) _).
  assert (Hp : Forall (within proj lo hi) padded).
  { repeat apply Forall_app_2; [apply Forall_pad, Forall_take|
                                |apply Forall_pad, Forall_last_row]; done. }
  apply Forall_lookup. intros i y Hy.
  apply list_lookup_fmap_Some in Hy as (d & -> & Hd).
  apply lookup_zip_with_Some in Hd as (u & v & -> & Hu & Hv).
  rewrite lookup_drop in Hu. apply lookup_take_Some in Hv as [Hv _].
  apply (quotient_within _ (proj u - proj v) window_size); [lia| |].
  - by rewrite proj_div, proj_sub.
  - rewrite <- (Z2Nat.id window_size) at 1 2 by lia.
    apply (cumsum_window padded _ i); [done..|].
    by rewrite Nat.add_comm.
Qed.

(** A sum that starts from [M] rows' worth and takes in the rows of [a]. *)
Lemma foldl_sum_within a (acc : E) (M : nat) :
  (inject_Z (Z.of_nat M) * lo <= proj acc <= inject_Z (Z.of_nat M) * hi)%Q ->
  Forall (within proj lo hi) a ->
  (inject_Z (Z.of_nat (M + length a)) * lo <= proj (foldl eadd acc a)
   <= inject_Z (Z.of_nat (M + length a)) * hi)%Q.
Proof.
  revert acc M. induction a as [|x a IH]; intros acc M Hacc Ha.
  - simpl. by rewrite Nat.add_0_r.
  - apply Forall_cons in Ha as [Hx Ha]. simpl.
    replace (M + S (length a))%nat with (S M + length a)%nat by lia.
    apply IH; [|done].
    rewrite Nat2Z.inj_succ, <- Z.add_1_r, inject_Z_plus.
    change (inject_Z 1) with 1%Q.
    pose proof (proj_add acc x) as Hadd. unfold within in Hx.
    set (N := inject_Z (Z.of_nat M)) in *.
    rewrite !Qmult_plus_distr_l, !Qmult_1_l.
    generalize dependent (N * lo)%Q. generalize dependent (N * hi)%Q.
    intros. lra.
Qed.

Lemma mean_within (block : list E) :
  block <> [] -> Forall (within proj lo hi) block -> within proj lo hi (mean block).
Proof.
  intros Hne Hb. destruct block as [|x block]; [done|].
  apply Forall_cons in Hb as [Hx Hb].
  apply (quotient_within _ (proj (esum (x :: block)))
           (Z.of_nat (length (x :: block)))); [simpl; lia|apply proj_div|].
  simpl esum. change (length (x :: block)) with (1 + length block)%nat.
  apply foldl_sum_within; [|done].
  change (inject_Z (Z.of_nat 1)) with 1%Q. unfold within in Hx.
  rewrite !Qmult_1_l. done.
Qed.

Lemma subsample_within bdata (k : Z) :
  Forall (within proj lo hi) bdata ->
  Forall (within proj lo hi) (subsample bdata k).
Proof.
  intros Hb. destruct (Z.leb_spec k 1) as [Hk|Hk].
  { by rewrite length_subsample_id. }
  rewrite subsample_blocks by done.
  assert (Hp : Forall (within proj lo hi) (padded_to_blocks bdata k)).
  { unfold padded_to_blocks. destruct (negb _); [|done].
    apply Forall_app_2; [done|]. by apply Forall_pad, Forall_last_row. }
  apply Forall_fmap, Forall_lookup. intros i block Hi. simpl.
  apply mean_within.
  - assert (Hfull : length block = Z.to_nat k).
    { by apply lookup_block in Hi. }
    intros ->. simpl in Hfull. lia.
  - apply (proj1 (Forall_lookup (Forall (within proj lo hi)) _)
             (Forall_reshape _ _ _ Hp) i block Hi).
Qed.

Lemma smoothen_within bdata (window_size n_subsample : Z) :
  Forall (within proj lo hi) bdata ->
  Forall (within proj lo hi) (smoothen bdata window_size n_subsample).
Proof. intros Hb. by apply subsample_within, moving_average_within. Qed.

End Range.

Lemma foldl_Qmin_le (l : list Q) (x : Q) :
  (foldl Qmin x l <= x)%Q /\ Forall (fun y => (foldl Qmin x l <= y)%Q) l.
Proof.
  revert x. induction l as [|z l IH]; intros x; simpl.
  - split; [lra|done].
  - destruct (IH (Qmin x z)) as [Hx Hl].
    pose proof (Q.le_min_l x z). pose proof (Q.le_min_r x z).
    split; [lra|]. constructor; [lra|done].
Qed.

Lemma foldl_Qmax_le (l : list Q) (x : Q) :
  (x <= foldl Qmax x l)%Q /\ Forall (fun y => (y <= foldl Qmax x l)%Q) l.
Proof.
  revert x. induction l as [|z l IH]; intros x; simpl.
  - split; [lra|done].
  - destruct (IH (Qmax x z)) as [Hx Hl].
    pose proof (Q.le_max_l x z). pose proof (Q.le_max_r x z).
    split; [lra|]. constructor; [lra|done].
Qed.

Lemma qmin_qmax_list (l : list Q) :
  Forall (fun y => (qmin_list l <= y <= qmax_list l)%Q) l.
Proof.
  destruct l as [|x l]; [done|]. simpl.
  destruct (foldl_Qmin_le l x) as [Hx Hl]. destruct (foldl_Qmax_le l x) as [Hx' Hl'].
  constructor; [done|].
  apply Forall_lookup. intros i y Hy. split.
  - by apply (proj1 (Forall_lookup _ _) Hl i).
  - by apply (proj1 (Forall_lookup _ _) Hl' i).
Qed.

(** An array lies in its own range. *)
Lemma in_own_range {E} (proj : E -> Q) (l : list E) : in_input_range proj l l.
Proof.
  unfold in_input_range. apply Forall_lookup. intros i x Hx.
  apply (proj1 (Forall_lookup _ _) (qmin_qmax_list (proj <$> l)) i (proj x)).
  by rewrite list_lookup_fmap, Hx.
Qed.

(** The three columns the program smooths: a scalar, and the two of a pair. *)
Lemma id_column : forall (proj := @id Q),
  (forall a b, proj (eadd a b) == proj a + proj b)%Q /\
  (forall a b, proj (esub a b) == proj a - proj b)%Q /\
  (forall a n, proj (ediv a n) == proj a / inject_Z n)%Q.
Proof. by repeat split. Qed.

Lemma fst_column : forall (proj := @fst Q Q),
  (forall a b, proj (eadd a b) == proj a + proj b)%Q /\
  (forall a b, proj (esub a b) == proj a - proj b)%Q /\
  (forall a n, proj (ediv a n) == proj a / inject_Z n)%Q.
Proof. by repeat split. Qed.

Lemma snd_column : forall (proj := @snd Q Q),
  (forall a b, proj (eadd a b) == proj a + proj b)%Q /\
  (forall a b, proj (esub a b) == proj a - proj b)%Q /\
  (forall a n, proj (ediv a n) == proj a / inject_Z n)%Q.
Proof. by repeat split. Qed.

Lemma smoothing_in_input_range {E} `{Elem E} (proj : E -> Q) (l : list E) (w k : Z) :
  (forall a b, proj (eadd a b) == proj a + proj b)%Q /\
  (forall a b, proj (esub a b) == proj a - proj b)%Q /\
  (forall a n, proj (ediv a n) == proj a / inject_Z n)%Q ->
  in_input_range proj l (moving_average l w) /\
  in_input_range proj l (subsample l k) /\
  in_input_range proj l (smoothen l w k).
Proof.
  intros (Hadd & Hsub & Hdiv). pose proof (in_own_range proj l) as Hl.
  unfold in_input_range in *. split; [|split].
  - by apply moving_average_within.
  - by apply subsample_within.
  - by apply smoothen_within.
Qed.

(** ** The smoother: the claims *)

(** C8: on a non-empty array and with a window of at least 1, the moving
    average returns as many rows as it is given, whatever the rows are and
    whatever their arithmetic is. *)
Theorem moving_average_keeps_length {E} `{Elem E} (bdata : list E) (window_size : Z) :
  bdata <> [] -> 1 <= window_size ->
  length (moving_average bdata window_size) = length bdata.
Proof. intros _ _. apply length_moving_average. Qed.

Lemma moving_average_keeps_length_witness :
  length (moving_average [1; 2; 3]%Q 10) = length [1; 2; 3]%Q.
Proof. apply moving_average_keeps_length; [done|lia]. Defined.

(** C10, in exact arithmetic: on a non-empty array of rationals, or of pairs
    of rationals, every component of every row that [moving_average],
    [subsample] and [smoothen] return lies between the least and the
    greatest value of that component over the input, for every window and
    every block size. *)
Theorem smoothing_stays_in_input_range (l : list Q) (pl : list (Q * Q)) (w k : Z) :
  l <> [] -> pl <> [] ->
  (in_input_range id l (moving_average l w) /\
   in_input_range id l (subsample l k) /\
   in_input_range id l (smoothen l w k)) /\
  (in_input_range fst pl (moving_average pl w) /\
   in_input_range fst pl (subsample pl k) /\
   in_input_range fst pl (smoothen pl w k)) /\
  (in_input_range snd pl (moving_average pl w) /\
   in_input_range snd pl (subsample pl k) /\
   in_input_range snd pl (smoothen pl w k)).
Proof.
  intros _ _. split; [|split].
  - apply smoothing_in_input_range, id_column.
  - apply smoothing_in_input_range, fst_column.
  - apply smoothing_in_input_range, snd_column.
Qed.

Lemma smoothing_stays_in_input_range_witness :
  in_input_range id [1; 5; 2]%Q (smoothen [1; 5; 2]%Q 10 2) /\
  in_input_range fst [(1, 7); (5, 3)]%Q (smoothen [(1, 7); (5, 3)]%Q 10 2) /\
  in_input_range snd [(1, 7); (5, 3)]%Q (smoothen [(1, 7); (5, 3)]%Q 10 2).
Proof.
  destruct (smoothing_stays_in_input_range [1; 5; 2]%Q [(1, 7); (5, 3)]%Q 10 2)
    as ((_ & _ & H1) & (_ & _ & H2) & (_ & _ & H3)); [done|done|].
  split; [exact H1|]. split; [exact H2|exact H3].
Defined.

(** In binary64 the running sums are rounded: the one sample 0.7 comes out of
    the moving average of window 10, and of [smoothen] as [render_pdf]
    configures it, as 0.7000000000000001, above the only value of the
    input. *)
Lemma smoothing_overshoots_in_binary64 :
  moving_average [0.7%float] 10 = [0.7000000000000001%float] /\
  smoothen [0.7%float] 10 2 = [0.7000000000000001%float] /\
  PrimFloat.ltb 0.7 0.7000000000000001 = true.
Proof. repeat split. Qed.

(** C7, as the code has it: smoothing an array of [n] copies of a rational
    [c], or of a pair of rationals, returns copies of the same value (in
    exact arithmetic), [n] of them when the block size is at most 1 and
    [ceil(n / k)] of them for a block size [k > 1]. *)
Theorem smoothen_constant (c a b : Q) (n : nat) (w k : Z) :
  (Z.of_nat (length (smoothen (replicate n c) w k)) =
     (if k <=? 1 then Z.of_nat n else (Z.of_nat n + k - 1) `div` k) /\
   Forall (fun y => y == c)%Q (smoothen (replicate n c) w k)) /\
  (Z.of_nat (length (smoothen (replicate n (a, b)) w k)) =
     (if k <=? 1 then Z.of_nat n else (Z.of_nat n + k - 1) `div` k) /\
   Forall (fun p => p.1 == a /\ p.2 == b)%Q (smoothen (replicate n (a, b)) w k)).
Proof.
  destruct id_column as (Hi1 & Hi2 & Hi3).
  destruct fst_column as (Hf1 & Hf2 & Hf3).
  destruct snd_column as (Hs1 & Hs2 & Hs3).
  split; (split; [by rewrite length_smoothen, length_replicate|]).
  - assert (Hc : Forall (within id c c) (replicate n c)).
    { apply Forall_replicate. unfold within. simpl. lra. }
    apply (smoothen_within id Hi1 Hi2 Hi3 c c _ w k) in Hc.
    eapply Forall_impl; [exact Hc|]. intros y [??]. by apply Qle_antisym.
  - assert (Ha : Forall (within fst a a) (replicate n (a, b))).
    { apply Forall_replicate. unfold within. simpl. lra. }
    assert (Hb : Forall (within snd b b) (replicate n (a, b))).
    { apply Forall_replicate. unfold within. simpl. lra. }
    apply (smoothen_within fst Hf1 Hf2 Hf3 a a _ w k) in Ha.
    apply (smoothen_within snd Hs1 Hs2 Hs3 b b _ w k) in Hb.
    apply Forall_lookup. intros i p Hp.
    destruct (proj1 (Forall_lookup _ _) Ha i p Hp).
    destruct (proj1 (Forall_lookup _ _) Hb i p Hp).
    split; by apply Qle_antisym.
Qed.

(** Four equal samples come back as two; and in binary64 the one sample 0.3
    comes back as 0.29999999999999993. *)
Lemma smoothen_constant_is_shorter :
  length (smoothen [1; 1; 1; 1]%Q 10 2) = 2%nat /\
  smoothen [1; 1; 1; 1]%Q 10 2 <> [1; 1; 1; 1]%Q /\
  smoothen [0.3%float] 10 2 = [0.29999999999999993%float] /\
  PrimFloat.ltb 0.29999999999999993 0.3 = true.
Proof.
  split; [reflexivity|]. split; [|by split].
  intros Heq. by apply (f_equal length) in Heq.
Qed.

(** * Further properties of the code *)

(** ** The smoother *)

(** X1: for a block size [k > 1], [subsample] returns [ceil(n / k)] rows
    for an array of [n] rows, whatever the rows are. *)
Theorem subsample_length_is_ceiling {E} `{Elem E} (bdata : list E) (k : Z) :
  1 < k ->
  Z.of_nat (length (subsample bdata k)) = (Z.of_nat (length bdata) + k - 1) `div` k.
Proof. apply length_subsample. Qed.

Lemma subsample_length_is_ceiling_witness :
  Z.of_nat (length (subsample [1; 2; 3; 4; 5]%Q 2)) = (Z.of_nat 5 + 2 - 1) `div` 2.
Proof. apply (subsample_length_is_ceiling [1; 2; 3; 4; 5]%Q 2). lia. Defined.

(** X2: [smoothen] never returns more rows than it is given, and it returns
    no row at all only for an array without rows: a stroke that has a sample
    keeps at least one point. *)
Theorem smoothen_shrinks_but_not_to_nothing {E} `{Elem E} (bdata : list E) (w k : Z) :
  (length (smoothen bdata w k) <= length bdata)%nat /\
  (smoothen bdata w k = [] <-> bdata = []).
Proof.
  pose proof (length_smoothen bdata w k) as Hlen.
  assert (Hsize : (length (smoothen bdata w k) <= length bdata)%nat /\
                  (length (smoothen bdata w k) = 0%nat <-> length bdata = 0%nat)).
  { destruct (Z.leb_spec k 1) as [Hk|Hk]; [lia|].
    set (n := Z.of_nat (length bdata)) in *. assert (0 <= n) by lia.
    assert (Hq : (n + k - 1) `div` k <= n /\ ((n + k - 1) `div` k = 0 <-> n = 0)).
    { destruct (Z.eq_dec n 0) as [->|Hn].
      - rewrite Z.div_small by lia. lia.
      - assert (1 <= (n + k - 1) `div` k) by (apply Z.div_le_lower_bound; lia).
        assert ((n + k - 1) `div` k <= n); [|lia].
        apply Z.div_le_upper_bound; nia. }
    lia. }
  split; [apply Hsize|].
  rewrite <- !length_zero_iff_nil. apply Hsize.
Qed.

(** An array of pairs is smoothed column by column. *)
Section Columns.
Context {E F : Type} `{Elem E} `{Elem F} (f : E -> F).
Hypothesis f_zero : f ezero = ezero.
Hypothesis f_add : forall a b, f (eadd a b) = eadd (f a) (f b).
Hypothesis f_sub : forall a b, f (esub a b) = esub (f a) (f b).
Hypothesis f_div : forall a n, f (ediv a n) = ediv (f a) n.
Implicit Types (a b : list E).

Lemma fmap_cumsum_from x a : f <$> cumsum_from x a = cumsum_from (f x) (f <$> a).
Proof.
  revert x. induction a as [|y a IH]; intros x; [done|].
  csimpl. by rewrite IH, f_add.
Qed.

Lemma fmap_cumsum a : f <$> cumsum a = cumsum (f <$> a).
Proof. destruct a as [|x a]; [done|]. csimpl. by rewrite fmap_cumsum_from. Qed.

Lemma fmap_last_row a : f <$> last_row a = last_row (f <$> a).
Proof. unfold last_row. by rewrite fmap_drop, length_fmap. Qed.

Lemma fmap_pad a (count : Z) : f <$> pad a count = pad (f <$> a) count.
Proof.
  unfold pad. induction (Z.to_nat count) as [|n IH]; [done|].
  csimpl. by rewrite fmap_app, IH.
Qed.

Lemma fmap_zip_with_sub a b :
  f <$> zip_with esub a b = zip_with esub (f <$> a) (f <$> b).
Proof.
  revert b. induction a as [|x a IH]; intros [|y b]; try done.
  csimpl. by rewrite IH, f_sub.
Qed.

Lemma fmap_swap {X Y} (g : X -> Y) (h : E -> X) (h' : F -> Y) a :
  (forall x, g (h x) = h' (f x)) -> g <$> (h <$> a) = h' <$> (f <$> a).
Proof.
  intros Hgh. rewrite <- !list_fmap_compose. apply list_fmap_ext.
  intros _ x _. apply Hgh.
Qed.

Lemma fmap_moving_average a (w : Z) :
  f <$> moving_average a w = moving_average (f <$> a) w.
Proof.
  unfold moving_average. destruct (w <=? 1); [done|].
  rewrite (fmap_swap f (fun x => ediv x w) (fun x => ediv x w)) by (intros; apply f_div).
  rewrite fmap_zip_with_sub, fmap_drop, fmap_take, !fmap_cumsum.
  rewrite !length_cumsum, !fmap_app, !fmap_pad, fmap_take, fmap_last_row.
  by rewrite <- fmap_take, <- fmap_last_row, <- !fmap_pad, <- !fmap_app, length_fmap.
Qed.

Lemma f_foldl_add x a : f (foldl eadd x a) = foldl eadd (f x) (f <$> a).
Proof.
  revert x. induction a as [|y a IH]; intros x; [done|].
  csimpl. by rewrite IH, f_add.
Qed.

Lemma f_mean a : f (mean a) = mean (f <$> a).
Proof.
  unfold mean. rewrite f_div, length_fmap. f_equal.
  destruct a as [|x a]; [done|]. csimpl. apply f_foldl_add.
Qed.

Lemma fmap_reshape_blocks (szs : list nat) a :
  fmap (M := list) f <$> reshape szs a = reshape szs (f <$> a).
Proof.
  revert a. induction szs as [|sz szs IH]; intros a; [done|].
  csimpl. by rewrite IH, fmap_take, fmap_drop.
Qed.

Lemma fmap_subsample a (k : Z) : f <$> subsample a k = subsample (f <$> a) k.
Proof.
  unfold subsample. destruct (k <=? 1); [done|].
  rewrite length_fmap.
  set (n := Z.of_nat (length a)). set (ragged_end := negb (n `mod` k =? 0)).
  assert (Hpad : (if ragged_end
                  then (f <$> a) ++ pad (last_row (f <$> a)) (k - n `mod` k)
                  else f <$> a)
                 = f <$> (if ragged_end then a ++ pad (last_row a) (k - n `mod` k) else a)).
  { destruct ragged_end; [|done]. by rewrite fmap_app, fmap_pad, fmap_last_row. }
  rewrite Hpad, length_fmap, <- fmap_reshape_blocks, <- !list_fmap_compose.
  apply list_fmap_ext. intros _ block _. apply f_mean.
Qed.

Lemma fmap_smoothen a (w k : Z) : f <$> smoothen a w k = smoothen (f <$> a) w k.
Proof. unfold smoothen. by rewrite fmap_subsample, fmap_moving_average. Qed.

End Columns.

(** X3: smoothing an array of pairs is smoothing its two columns on their
    own: the first (second) components of [smoothen] of the pairs are
    [smoothen] of the first (second) components, for any arithmetic. *)
Theorem smoothen_by_column {E} `{Elem E} (bdata : list (E * E)) (w k : Z) :
  fst <$> smoothen bdata w k = smoothen (fst <$> bdata) w k /\
  snd <$> smoothen bdata w k = smoothen (snd <$> bdata) w k.
Proof. split; by apply fmap_smoothen. Qed.

Lemma qsum_snoc (l : list Q) (z : Q) : (qsum (l ++ [z]) == qsum l + z)%Q.
Proof.
  induction l as [|x l IH]; simpl; [lra|]. rewrite IH. lra.
Qed.

(** Two running sums [m] rows apart differ by the sum of the rows between. *)
Lemma cumsum_difference (a : list Q) (m i : nat) (x y : Q) :
  cumsum a !! i = Some x -> cumsum a !! (i + m)%nat = Some y ->
  (y - x == qsum (take m (drop (S i) a)))%Q.
Proof.
  intros Hx. revert y. induction m as [|m IH]; intros y Hy.
  - rewrite Nat.add_0_r, Hx in Hy. injection Hy as <-. simpl. lra.
  - replace (i + S m)%nat with (S (i + m)) in Hy by lia.
    apply cumsum_step in Hy as (y' & z & Hy' & Hz & ->).
    rewrite (take_S_r _ _ z) by (by rewrite lookup_drop).
    rewrite qsum_snoc, <- (IH y' Hy'). simpl. lra.
Qed.

(** X4: in exact arithmetic, row [i] of the moving average of window [w > 1]
    is the mean of the [w] rows [i + 1 .. i + w] of the edge-padded array;
    away from the edges these are the input rows [i + 1 - w // 2 .. i + w -
    w // 2] (for the window 10 of [render_pdf]: rows [i - 4 .. i + 5]). *)
Theorem moving_average_is_window_mean (bdata : list Q) (w : Z) (i : nat) (y : Q) :
  1 < w ->
  moving_average bdata w !! i = Some y ->
  (y == qsum (take (Z.to_nat w)
                (drop (S i) (pad (take 1 bdata) (w `div` 2) ++ bdata
                             ++ pad (last_row bdata) (w - w `div` 2))))
        / inject_Z w)%Q /\
  ((Z.to_nat (w `div` 2) <= S i)%nat ->
   (S i - Z.to_nat (w `div` 2) + Z.to_nat w <= length bdata)%nat ->
   (y == qsum (take (Z.to_nat w) (drop (S i - Z.to_nat (w `div` 2)) bdata))
         / inject_Z w)%Q).
Proof.
  intros Hw Hy. unfold moving_average in Hy.
  destruct (Z.leb_spec w 1) as [|_]; [lia|].
  set (padded := pad (take 1 bdata) _ ++ bdata ++ pad (last_row bdata) _) in *.
  apply list_lookup_fmap_Some in Hy as (d & -> & Hd).
  apply lookup_zip_with_Some in Hd as (u & v & -> & Hu & Hv).
  rewrite lookup_drop in Hu. apply lookup_take_Some in Hv as [Hv _].
  rewrite Nat.add_comm in Hu.
  pose proof (cumsum_difference padded _ i v u Hv Hu) as Hsum.
  assert (Hmean : (ediv (esub u v) w
                   == qsum (take (Z.to_nat w) (drop (S i) padded)) / inject_Z w)%Q).
  { simpl. by rewrite Hsum. }
  split; [exact Hmean|]. intros Hbefore Hafter. rewrite Hmean.
  assert (Hne : bdata <> []) by (intros ->; simpl in Hafter; lia).
  destruct (length_pad_rows bdata (w `div` 2) Hne) as [Hpre _]; [apply Z.div_pos; lia|].
  subst padded.
  rewrite drop_app_ge by lia. rewrite Hpre.
  rewrite drop_app_le by lia.
  rewrite take_app_le by (rewrite length_drop; lia). done.
Qed.

Lemma moving_average_is_window_mean_witness :
  (2.1 == qsum (take 10 (drop 2 ([1; 1; 1; 1; 1] ++ [1; 2; 3] ++ [3; 3; 3; 3; 3]))) / 10)%Q.
Proof.
  destruct (moving_average_is_window_mean [1; 2; 3]%Q 10 1 2.1%Q) as [Hmean _];
    [lia|reflexivity|exact Hmean].
Defined.

(** ** Decoding *)

Section Decoding.
Context {A : Type} `{Scalar A}.

Lemma decode_well_formed (row : shape A) :
  well_formed row <-> exists pts prs, decode row = inr (pts, prs).
Proof.
  split.
  - intros [H9 H6]. by apply decode_ok.
  - intros (pts & prs & Hd). apply decode_inr in Hd as (H9 & H6 & _). by split.
Qed.

(** X5: [decode] returns samples exactly for the rows that hold nine matrix
    values and a whole number of six-float samples, and then it returns one
    position and one pressure for each six floats. *)
Theorem decode_accepts_whole_samples (row : shape A) :
  length (matrixValues row) = 9%nat /\ (length (points row) mod 6 = 0)%nat <->
  exists pts prs,
    decode row = inr (pts, prs) /\
    length pts = (length (points row) / 6)%nat /\ length prs = (length (points row) / 6)%nat.
Proof.
  split.
  - intros [H9 H6]. destruct (decode_ok row H9 H6) as (pts & prs & Hd).
    exists pts, prs. split; [done|].
    apply decode_inr in Hd as (_ & _ & Hpts & Hprs). by rewrite Hprs.
  - intros (pts & prs & Hd & _). apply decode_inr in Hd as (H9 & H6 & _). by split.
Qed.

(** Blocks of [k] rows laid end to end and cut again into blocks of [k]. *)
Lemma reshape_joined {X} (k : nat) (blocks : list (list X)) :
  Forall (fun b => length b = k) blocks ->
  reshape (replicate (length blocks) k) (mjoin blocks) = blocks.
Proof.
  induction 1 as [|b blocks Hb _ IH]; [done|].
  csimpl. rewrite take_app_length', drop_app_length' by done. by rewrite IH.
Qed.

Lemma length_blob (samples : list ((A * A * A) * (A * A * A))) :
  length (blob samples) = (6 * length samples)%nat.
Proof.
  unfold blob. induction samples as [|s samples IH]; [done|].
  csimpl. rewrite IH. lia.
Qed.

Lemma reshape_blob (samples : list ((A * A * A) * (A * A * A))) :
  reshape (replicate (length samples) 6%nat) (blob samples) =
    (fun s => [s.1.1.1; s.1.1.2; s.1.2; s.2.1.1; s.2.1.2; s.2.2]) <$> samples.
Proof.
  unfold blob. rewrite <- (length_fmap
    (fun s : A * A * A * (A * A * A) =>
       [s.1.1.1; s.1.1.2; s.1.2; s.2.1.1; s.2.1.2; s.2.2]) samples).
  apply reshape_joined. apply Forall_fmap, Forall_forall. done.
Qed.

(** X6: of each sample [decode] reads the first three floats only: the
    position is the first two rows of the matrix applied to [(x, y, 1)], the
    pressure is [(p / 1000) ** 0.5], the samples stay in order, and the three
    trailing floats and the last row of the matrix change nothing. *)
Theorem decode_reads_three_floats_of_six
    (samples : list ((A * A * A) * (A * A * A)))
    (m00 m01 m02 m10 m11 m12 m20 m21 m22 thickness : A) (shapeType color : Z) :
  decode (Shape (blob samples) [m00; m01; m02; m10; m11; m12; m20; m21; m22]
                thickness shapeType color) =
    inr ((fun s => (fadd (fadd (fmul s.1.1.1 m00) (fmul s.1.1.2 m01)) (fmul (of_int 1) m02),
                    fadd (fadd (fmul s.1.1.1 m10) (fmul s.1.1.2 m11)) (fmul (of_int 1) m12)))
           <$> samples,
         (fun s => fpow_half (fdiv s.1.2 (of_int 1000))) <$> samples).
Proof.
  unfold decode, reshape_3_3, reshape_rows. simpl length.
  rewrite length_blob. change (9 =? 9)%nat with true. cbv iota.
  replace (6 * length samples)%nat with (length samples * 6)%nat by lia.
  rewrite Nat.Div0.mod_mul, Nat.div_mul by done. change (0 =? 0)%nat with true.
  cbv iota. rewrite reshape_blob, <- !list_fmap_compose. done.
Qed.

End Decoding.

Lemma decode_accepts_whole_samples_witness :
  exists pts prs,
    decode blue_line = inr (pts, prs) /\
    length pts = (length (points blue_line) / 6)%nat /\
    length prs = (length (points blue_line) / 6)%nat.
Proof. apply (proj1 (decode_accepts_whole_samples blue_line)). by split. Defined.

(** ** Notes that render, and notes that do not *)

Lemma count_nil_filter {A} (kind : op A -> bool) (ops : list (op A)) :
  List.filter kind ops = [] -> count kind ops = 0%nat.
Proof. unfold count. by intros ->. Qed.

Section Outcome.
Context {A : Type} `{Scalar A}.
Implicit Types (st : paint A) (row : shape A) (db : string -> list (shape A)).

Lemma render_shapes_succeeds st rows :
  Forall well_formed rows ->
  exists ops, render_shapes st rows = (ops, inr (foldl track st rows)).
Proof.
  intros Hwf. revert st. induction Hwf as [|row rows Hrow _ IH]; intros st.
  - by exists [].
  - apply decode_well_formed in Hrow as (pts & prs & Hd).
    simpl. rewrite (render_shape_ok st row pts prs Hd).
    destruct (IH (track st row)) as [ops ->]. eauto.
Qed.

Lemma render_shapes_fails st rows :
  ~ Forall well_formed rows -> exists ops e, render_shapes st rows = (ops, inl e).
Proof.
  intros (row & Hin & Hbad)%not_Forall_Exists%Exists_exists; [|apply _].
  destruct (decode row) as [e|[pts prs]] eqn:Hd.
  - by apply (render_shapes_raises row e).
  - destruct Hbad. apply decode_well_formed. eauto.
Qed.

Lemma render_shapes_no_show_page st rows :
  count is_show_page (render_shapes st rows).1 = 0%nat.
Proof.
  revert st. induction rows as [|row rows IH]; intros st; [done|].
  simpl. destruct (render_shape st row) as [e|[st1 ops1]] eqn:Hr; [done|].
  specialize (IH st1). destruct (render_shapes st1 rows) as [ops' res]. simpl in *.
  apply render_shape_inr in Hr as (pts & prs & _ & _ & ->).
  rewrite !count_app, IH, paint_ops_eq.
  rewrite (count_nil_filter _ (draw _ _ _ _)).
  - by destruct (fne _ _), (bool_decide _).
  - rewrite draw_unfold. apply filter_concat_nil. intros r.
    by destruct (shapeType row =? 5), r.
Qed.

Lemma render_page_show_page st rows :
  count is_show_page (render_page st rows).1 =
    if decide (Forall well_formed rows) then 1%nat else 0%nat.
Proof.
  unfold render_page. pose proof (render_shapes_no_show_page st rows) as Hc.
  destruct (decide (Forall well_formed rows)) as [Hwf|Hbad].
  - destruct (render_shapes_succeeds st rows Hwf) as [ops Hr]. rewrite Hr in *.
    simpl in *. rewrite count_app, Hc. done.
  - destruct (render_shapes_fails st rows Hbad) as (ops & e & Hr). by rewrite Hr in *.
Qed.

Lemma render_page_outcome st rows :
  (Forall well_formed rows -> (render_page st rows).2 = inr (foldl track st rows)) /\
  (~ Forall well_formed rows -> exists e, (render_page st rows).2 = inl e).
Proof.
  unfold render_page. split.
  - intros Hwf. destruct (render_shapes_succeeds st rows Hwf) as [ops ->]. done.
  - intros Hbad. destruct (render_shapes_fails st rows Hbad) as (ops & e & ->). eauto.
Qed.

(** The pages before the first one that holds a malformed row are finished;
    that page is not, and no later page is begun. *)
Lemma render_pages_stop db st pre page post :
  Forall (fun p => Forall well_formed (db p)) pre ->
  ~ Forall well_formed (db page) ->
  (exists e, (render_pages db st (pre ++ page :: post)).2 = inl e) /\
  count is_show_page (render_pages db st (pre ++ page :: post)).1 = length pre.
Proof.
  intros Hpre Hbad. revert st. induction Hpre as [|p pre Hp _ IH]; intros st.
  - simpl. pose proof (render_page_show_page st (db page)) as Hc.
    destruct (render_page_outcome st (db page)) as [_ Hout].
    destruct (Hout Hbad) as [e He].
    destruct (render_page st (db page)) as [ops r]. simpl in *. subst r.
    rewrite decide_False in Hc by done. eauto.
  - simpl. pose proof (render_page_show_page st (db p)) as Hc.
    destruct (render_page_outcome st (db p)) as [Hout _]. specialize (Hout Hp).
    destruct (render_page st (db p)) as [ops r]. simpl in *. subst r.
    destruct (IH (foldl track st (db p))) as [He Hn].
    destruct (render_pages db _ (pre ++ page :: post)) as [ops' r']. simpl in *.
    split; [done|]. rewrite count_app, Hc, Hn, decide_True by done. done.
Qed.

Lemma render_pages_finish db st pgs :
  Forall (fun p => Forall well_formed (db p)) pgs ->
  (exists st', (render_pages db st pgs).2 = inr st') /\
  count is_show_page (render_pages db st pgs).1 = length pgs.
Proof.
  intros Hpgs. revert st. induction Hpgs as [|p pgs Hp _ IH]; intros st.
  - simpl. eauto.
  - simpl. pose proof (render_page_show_page st (db p)) as Hc.
    destruct (render_page_outcome st (db p)) as [Hout _]. specialize (Hout Hp).
    destruct (render_page st (db p)) as [ops r]. simpl in *. subst r.
    destruct (IH (foldl track st (db p))) as [He Hn].
    destruct (render_pages db _ pgs) as [ops' r']. simpl in *.
    split; [done|]. rewrite count_app, Hc, Hn, decide_True by done. done.
Qed.

Lemma render_pages_fail db st pgs :
  ~ Forall (fun p => Forall well_formed (db p)) pgs ->
  exists e, (render_pages db st pgs).2 = inl e.
Proof.
  revert st. induction pgs as [|p pgs IH]; intros st Hbad.
  - by destruct Hbad.
  - simpl. destruct (render_page_outcome st (db p)) as [Hok Hfail].
    destruct (decide (Forall well_formed (db p))) as [Hp|Hp].
    + specialize (Hok Hp). destruct (render_page st (db p)) as [ops r].
      simpl in Hok. subst r.
      destruct (IH (foldl track st (db p))) as [e He].
      { intros Hpgs. apply Hbad. by constructor. }
      destruct (render_pages db _ pgs) as [ops' r']. simpl in *. eauto.
    + destruct (Hfail Hp) as [e He]. destruct (render_page st (db p)) as [ops r].
      simpl in He. subst r. eauto.
Qed.

Lemma render_pdf_unfold db (d : descriptor) :
  render_pdf db d =
    (setup ++ (render_pages db initial_paint (pages d)).1,
     match (render_pages db initial_paint (pages d)).2 with
     | inl e => Some e
     | inr _ => None
     end).
Proof. unfold render_pdf. by destruct (render_pages _ _ _). Qed.

Lemma render_pdf_returns db (d : descriptor) :
  (render_pdf db d).2 = None <->
  Forall (fun p => Forall well_formed (db p)) (pages d).
Proof.
  rewrite render_pdf_unfold. simpl. split.
  - intros Hok.
    destruct (decide (Forall (fun p => Forall well_formed (db p)) (pages d)))
      as [|Hbad]; [done|].
    destruct (render_pages_fail db initial_paint _ Hbad) as [e He].
    by rewrite He in Hok.
  - intros Hall. destruct (render_pages_finish db initial_paint _ Hall) as [[st' ->] _].
    done.
Qed.


(** X8: a note that renders without an exception ends every one of its
    pages: the canvas gets as many [show_page] as the note lists pages, also
    for the pages that hold no stroke. *)
Theorem rendered_note_ends_every_page db (d : descriptor) :
  (render_pdf db d).2 = None ->
  count is_show_page (render_pdf db d).1 = length (pages d).
Proof.
  intros Hall. apply render_pdf_returns in Hall.
  rewrite render_pdf_unfold. cbn [fst]. rewrite count_app.
  destruct (render_pages_finish db initial_paint _ Hall) as [_ ->]. done.
Qed.

(** X9: the first page that holds a malformed row ends the note: the pages
    before it are ended with [show_page], that page is not, no page after it
    is begun, and [render_pdf] raises. *)
Theorem malformed_row_ends_the_note db (d : descriptor) pre page post :
  pages d = pre ++ page :: post ->
  Forall (fun p => Forall well_formed (db p)) pre ->
  ~ Forall well_formed (db page) ->
  (exists e, (render_pdf db d).2 = Some e) /\
  count is_show_page (render_pdf db d).1 = length pre.
Proof.
  intros Hd Hpre Hbad. rewrite render_pdf_unfold, Hd. cbn [fst snd]. rewrite count_app.
  destruct (render_pages_stop db initial_paint pre page post Hpre Hbad) as [[e ->] ->].
  split; [eauto|done].
Qed.

End Outcome.

Lemma rendered_note_ends_every_page_witness :
  count is_show_page
    (render_pdf (fun _ => [blue_line]) (Descriptor "note" ["p1"; "p2"; "p3"]%string)).1
  = 3%nat.
Proof.
  apply (rendered_note_ends_every_page (fun _ => [blue_line])
           (Descriptor "note" ["p1"; "p2"; "p3"]%string)).
  vm_compute. reflexivity.
Defined.

Lemma malformed_row_ends_the_note_witness :
  (exists e,
     (render_pdf (fun p => if String.eqb p "p2" then [blue_line; ragged] else [blue_pen])
                 (Descriptor "note" ["p1"; "p2"; "p3"]%string)).2 = Some e) /\
  count is_show_page
    (render_pdf (fun p => if String.eqb p "p2" then [blue_line; ragged] else [blue_pen])
                (Descriptor "note" ["p1"; "p2"; "p3"]%string)).1 = 1%nat.
Proof.
  apply (malformed_row_ends_the_note _ (Descriptor "note" ["p1"; "p2"; "p3"]%string)
           ["p1"%string] "p2"%string ["p3"%string]).
  - reflexivity.
  - repeat constructor.
  - intros Hwf. apply Forall_cons in Hwf as [_ Hwf]. apply Forall_cons in Hwf as [[_ Hr] _].
    vm_compute in Hr. discriminate.
Defined.

(** ** Strokes of a fixed width, short strokes, empty pages *)

(** Indexing every position of a list is going through the list. *)
Lemma fmap_seq_lookup {X Y} (g : X -> Y) (d : X) (a : nat) (l : list X) :
  (fun i => g (default d (l !! (a + i)%nat))) <$> seq 0 (length l - a) = g <$> drop a l.
Proof.
  apply list_eq. intros j.
  rewrite !list_lookup_fmap, lookup_drop.
  destruct (decide (j < length l - a)%nat) as [Hj|Hj].
  - rewrite lookup_seq_lt by done. simpl.
    destruct (lookup_lt_is_Some_2 l (a + j)) as [x Hx]; [lia|]. by rewrite Hx.
  - rewrite lookup_seq_ge by lia. by rewrite lookup_ge_None_2 by lia.
Qed.

Lemma concat_singletons {X Y} (g : X -> Y) (l : list X) :
  concat ((fun x => [g x]) <$> l) = g <$> l.
Proof. induction l as [|x l IH]; [done|]. csimpl. by rewrite IH. Qed.

Section Plain.
Context {A : Type} `{Scalar A}.

Lemma plain_loop (t : A) (P : list (A * A)) (Pr : list A) :
  concat ((fun i => draw_sample false t P Pr (S i)) <$> seq 0 (length P - 1))
  = (fun q => line_to q.1 q.2) <$> drop 1 P.
Proof.
  rewrite <- (fmap_seq_lookup (fun q : A * A => line_to q.1 q.2) (of_int 0, of_int 0) 1 P).
  by rewrite <- (concat_singletons
                   (fun i => line_to (default (of_int 0, of_int 0) (P !! (1 + i)%nat)).1
                                     (default (of_int 0, of_int 0) (P !! (1 + i)%nat)).2)).
Qed.

(** X10: a stroke of any shape type but 5 is drawn as one move to the first
    smoothed point and one line to each further smoothed point, in order,
    and nothing else: no width, no colour, no commit. *)
Theorem plain_stroke_is_one_path (t : A) (ty : Z) pts prs :
  ty <> 5 ->
  draw t ty pts prs =
    match smoothen (scaled pts) average_win_size n_subsample with
    | [] => []
    | p :: rest => move_to p.1 p.2 :: ((fun q => line_to q.1 q.2) <$> rest)
    end.
Proof.
  intros Hty. rewrite draw_plain by done.
  pose proof (plain_loop t (smoothen (scaled pts) average_win_size n_subsample)
                (smoothen prs average_win_size n_subsample)) as Hloop.
  destruct (smoothen (scaled pts) average_win_size n_subsample) as [|p rest]; [done|].
  change (length (p :: rest) - 1)%nat with (length rest - 0)%nat in Hloop.
  rewrite Nat.sub_0_r in Hloop. simpl length. cbv iota. rewrite Hloop. done.
Qed.

(** X11: a decoded stroke of [n] samples holds [ceil(n / 2) - 1] lines (none
    for [n = 0]), whatever its shape type: a stroke of one or two samples
    leaves no line on the page. *)
Theorem stroke_line_count (row : shape A) pts prs :
  decode row = inr (pts, prs) ->
  count is_line_to (draw (thickness row) (shapeType row) pts prs)
  = ((length (points row) / 6 + 1) / 2 - 1)%nat /\
  ((length (points row) <= 12)%nat ->
   count is_line_to (draw (thickness row) (shapeType row) pts prs) = 0%nat).
Proof.
  intros Hd. destruct (decode_inr row pts prs Hd) as (_ & _ & Hlen & _).
  assert (Hcount : count is_line_to (draw (thickness row) (shapeType row) pts prs)
                   = ((length (points row) / 6 + 1) / 2 - 1)%nat).
  { rewrite <- Hlen, <- (length_scaled pts), <- length_smoothen_10_2.
    change (smoothen (scaled pts) 10 2)
      with (smoothen (scaled pts) average_win_size n_subsample).
    destruct (decide (shapeType row = 5)) as [->|Hty].
    - rewrite draw_pressure.
      destruct (length (smoothen (scaled pts) average_win_size n_subsample)) as [|n];
        [done|].
      rewrite (pressure_loop_count _ _ _ _ _ 1) by done.
      change (count is_line_to (draw_sample true _ _ _ 0)) with 0%nat. lia.
    - rewrite draw_plain by done.
      destruct (length (smoothen (scaled pts) average_win_size n_subsample)) as [|n];
        [done|].
      rewrite count_app, (count_concat_blocks _ _ 1) by done.
      change (count is_line_to (draw_sample false _ _ _ 0)) with 0%nat. lia. }
  split; [done|]. intros Hshort. rewrite Hcount.
  assert (length (points row) / 6 <= 2)%nat by (apply Nat.Div0.div_le_upper_bound; lia).
  assert ((length (points row) / 6 + 1) / 2 < 2)%nat
    by (apply Nat.Div0.div_lt_upper_bound; lia).
  lia.
Qed.

(** X12: a stroke without a sample draws nothing, but its thickness and
    colour are applied and tracked like those of any stroke. *)
Theorem empty_stroke_only_paints (st : paint A) (row : shape A) :
  length (matrixValues row) = 9%nat ->
  points row = [] ->
  render_shape st row = inr (track st row, paint_ops st row).
Proof.
  intros H9 Hnil.
  destruct (decode_ok row H9) as (pts & prs & Hd); [by rewrite Hnil|].
  rewrite (render_shape_ok st row pts prs Hd).
  destruct (decode_inr row pts prs Hd) as (_ & _ & Hlen & _).
  rewrite Hnil in Hlen. apply length_zero_iff_nil in Hlen as ->.
  by rewrite app_nil_r.
Qed.

(** X13: a note whose pages hold no stroke renders one commit and one end
    of page for each page, and nothing else after the set-up. *)
Theorem blank_pages (db : string -> list (shape A)) (d : descriptor) :
  (forall page, page ∈ pages d -> db page = []) ->
  render_pdf db d =
    (setup ++ mjoin (replicate (length (pages d)) [stroke; show_page]), None).
Proof.
  intros Hblank. rewrite render_pdf_unfold.
  assert (Hpages : render_pages db initial_paint (pages d) =
                   (mjoin (replicate (length (pages d)) [stroke; show_page]),
                    inr initial_paint)).
  { generalize (@initial_paint A _). induction (pages d) as [|page pgs IH]; intros st.
    - done.
    - simpl. rewrite (Hblank page) by left. simpl.
      rewrite IH; [done|]. intros p Hp. apply Hblank. by right. }
  by rewrite Hpages.
Qed.

End Plain.

Lemma plain_stroke_is_one_path_witness :
  draw 2%float 1 blue_line_points blue_line_pressure =
    match smoothen (scaled blue_line_points) average_win_size n_subsample with
    | [] => []
    | p :: rest => move_to p.1 p.2 :: ((fun q => line_to q.1 q.2) <$> rest)
    end.
Proof. apply plain_stroke_is_one_path. done. Defined.

Lemma stroke_line_count_witness :
  count is_line_to
    (draw (thickness blue_pen) (shapeType blue_pen) blue_pen_points blue_pen_pressure)
  = ((length (points blue_pen) / 6 + 1) / 2 - 1)%nat.
Proof.
  apply (stroke_line_count blue_pen blue_pen_points blue_pen_pressure).
  vm_compute. reflexivity.
Defined.

Lemma empty_stroke_only_paints_witness :
  render_shape initial_paint (Shape [] identity_matrix 2%float 1 0x0000FF) =
    inr (Paint (255, 0, 0) 2%float,
         [stroke; set_line_width 0.6%float; stroke; set_source_rgb 0%float 0%float 1%float]).
Proof.
  rewrite (empty_stroke_only_paints initial_paint
             (Shape [] identity_matrix 2%float 1 0x0000FF)) by done.
  vm_compute. reflexivity.
Defined.

Lemma blank_pages_witness :
  render_pdf (A := float) (fun _ => []) (Descriptor "note" ["p1"; "p2"]%string) =
    (setup ++ [stroke; show_page; stroke; show_page], None).
Proof. apply (blank_pages (fun _ => []) (Descriptor "note" ["p1"; "p2"]%string)). done. Defined.

(** ** Colours, widths, and strokes that share their attributes *)

Lemma channel_is_byte (c n : Z) :
  0 <= n -> Z.land (Z.shiftr c n) 255 = (c `div` 2 ^ n) `mod` 256.
Proof.
  intros Hn. change 255 with (Z.ones 8). rewrite Z.land_ones by lia.
  by rewrite Z.shiftr_div_pow2.
Qed.

Lemma channel_ignores_high_bits (c k n : Z) :
  0 <= n <= 16 ->
  Z.land (Z.shiftr (c + k * 2 ^ 24) n) 255 = Z.land (Z.shiftr c n) 255.
Proof.
  intros Hn. rewrite !channel_is_byte by lia.
  replace (k * 2 ^ 24) with (k * 2 ^ (16 - n) * 256 * 2 ^ n).
  - rewrite Z.div_add by (apply Z.pow_nonzero; lia). by rewrite Z_mod_plus_full.
  - change 256 with (2 ^ 8). rewrite <- !Z.mul_assoc, <- !Z.pow_add_r by lia.
    by replace (16 - n + (8 + n)) with 24 by lia.
Qed.

(** X14: only the low 24 bits of the packed colour reach the canvas: adding
    any multiple of [2^24] (an alpha byte, or the [2^32] that separates the
    signed from the unsigned reading of the same 32 bits) leaves the three
    channel bytes as they are. *)
Theorem channels_ignore_high_bits (c k : Z) :
  channels (c + k * 2 ^ 24) = channels c /\
  channels (c `mod` 2 ^ 24) = channels c /\
  channels (c - 2 ^ 32) = channels c.
Proof.
  assert (Hadd : forall c k, channels (c + k * 2 ^ 24) = channels c).
  { clear. intros c k. unfold channels.
    pose proof (channel_ignores_high_bits c k 0 ltac:(lia)) as H0.
    rewrite !Z.shiftr_0_r in H0.
    by rewrite H0, !channel_ignores_high_bits by lia. }
  split; [apply Hadd|]. split.
  - rewrite Z.mod_eq by lia.
    replace (c - 2 ^ 24 * (c `div` 2 ^ 24)) with (c + - (c `div` 2 ^ 24) * 2 ^ 24) by lia.
    apply Hadd.
  - replace (c - 2 ^ 32) with (c + (-256) * 2 ^ 24) by lia. apply Hadd.
Qed.

(** Python's [max] with the floor 0.1, in binary64. *)
Lemma pymax_floor (x : float) : PrimFloat.ltb (pymax x (lit 0.1)) 0.1 = false.
Proof.
  unfold pymax. change (fgt (lit 0.1) x) with (PrimFloat.ltb x 0.1).
  destruct (PrimFloat.ltb x 0.1) eqn:Hx; [reflexivity|exact Hx].
Qed.

(** X15: in binary64, no width the loop sets for a sample of a pen stroke is
    below 0.1 (a width that is not a number is not below it either). *)
Theorem pressure_width_not_below_floor (t : float) pts prs (i : nat) (w : float) :
  draw t 5 pts prs !! i = Some (set_line_width w) ->
  PrimFloat.ltb w 0.1 = false.
Proof.
  intros Hi. apply list_elem_of_lookup_2, list_elem_of_In in Hi.
  rewrite draw_unfold in Hi. apply in_concat in Hi as (ops & Hops & Hin).
  apply list_elem_of_In, list_elem_of_fmap in Hops as (r & -> & _).
  change (5 =? 5) with true in Hin.
  destruct r as [|r].
  - rewrite draw_sample_pressure_0 in Hin.
    destruct Hin as [[= <-]|[[=]|[]]]. apply pymax_floor.
  - rewrite draw_sample_pressure_S in Hin.
    destruct Hin as [[= <-]|[[=]|[[=]|[[=]|[]]]]]. apply pymax_floor.
Qed.

Lemma pressure_width_not_below_floor_witness :
  PrimFloat.ltb 0.2138633894616272 0.1 = false.
Proof.
  apply (pressure_width_not_below_floor 2 blue_pen_points blue_pen_pressure 2).
  vm_compute. reflexivity.
Defined.

Section SharedAttributes.
Context {A : Type} `{Scalar A}.

Lemma unchanged_attributes (st : paint A) (row : shape A) :
  fne (prev_thickness st) (thickness row) = false ->
  channels (color row) = prev_color st ->
  paint_ops st row = [] /\ track st row = st.
Proof.
  intros Ht Hc. unfold paint_ops, track, set_thickness, set_color. rewrite Ht. simpl.
  rewrite bool_decide_eq_false_2 by (by intros Hne; apply Hne). done.
Qed.

(** X16: when a stroke has the thickness and the channel bytes of the stroke
    before it (and the thickness is a number, equal to itself), nothing is
    sent to the canvas between the two: no commit, no width, no colour.  The
    lines of the first are then committed with whatever the second sets
    before its first commit, and a width a pen stroke left on the canvas
    stays for the stroke after it. *)
Theorem same_attributes_draw_on (st : paint A) (row1 row2 : shape A) pts1 prs1 pts2 prs2 :
  decode row1 = inr (pts1, prs1) ->
  decode row2 = inr (pts2, prs2) ->
  thickness row2 = thickness row1 ->
  fne (thickness row1) (thickness row1) = false ->
  channels (color row2) = channels (color row1) ->
  render_shapes st [row1; row2] =
    (paint_ops st row1
     ++ draw (thickness row1) (shapeType row1) pts1 prs1
     ++ draw (thickness row2) (shapeType row2) pts2 prs2,
     inr (track st row1)).
Proof.
  intros Hd1 Hd2 Ht Hself Hc. cbn [render_shapes].
  rewrite (render_shape_ok st row1 pts1 prs1 Hd1).
  rewrite (render_shape_ok _ row2 pts2 prs2 Hd2).
  destruct (unchanged_attributes (track st row1) row2) as [-> ->].
  - rewrite track_thickness, Ht.
    by destruct (fne (prev_thickness st) (thickness row1)) eqn:Hchanged.
  - by rewrite track_color.
  - by rewrite app_nil_r, <- app_assoc.
Qed.

End SharedAttributes.

Lemma same_attributes_draw_on_witness :
  render_shapes initial_paint [blue_line; blue_pen] =
    (paint_ops initial_paint blue_line
     ++ draw 2%float 1 blue_line_points blue_line_pressure
     ++ draw 2%float 5 blue_pen_points blue_pen_pressure,
     inr (track initial_paint blue_line)).
Proof.
  apply (same_attributes_draw_on initial_paint blue_line blue_pen);
    vm_compute; reflexivity.
Defined.

(** ** Folders *)

Section Folders.
Implicit Types (dirs : gmap string (string * option string)) (parent : option string).

Lemma get_dir_loop_none dirs (fuel : nat) dlist :
  get_dir_loop fuel dirs None dlist = Some (inr dlist).
Proof. by destruct fuel. Qed.

Lemma get_dir_loop_ancestors dirs parent above :
  ancestors dirs parent above ->
  forall (fuel : nat) dlist, (length above <= fuel)%nat ->
    get_dir_loop fuel dirs parent dlist = Some (inr (above ++ dlist)).
Proof.
  induction 1 as [|key title parent above Hkey _ IH]; intros fuel dlist Hfuel.
  - apply get_dir_loop_none.
  - rewrite length_app in Hfuel. simpl in Hfuel.
    destruct fuel as [|fuel]; [lia|]. simpl. rewrite Hkey. simpl.
    rewrite IH by lia. by rewrite <- app_assoc.
Qed.

(** The loop goes up the folders one by one. *)
Lemma get_dir_loop_steps dirs (n : nat) parent mid :
  nsteps (parent_of dirs) n parent mid ->
  forall (fuel : nat) dlist,
    ((fuel < n)%nat -> get_dir_loop fuel dirs parent dlist = None) /\
    ((n <= fuel)%nat ->
     exists dlist', get_dir_loop fuel dirs parent dlist
                    = get_dir_loop (fuel - n) dirs mid dlist').
Proof.
  induction 1 as [x|n x y z (key & title & -> & Hkey) _ IH]; intros fuel dlist.
  - split; [lia|]. intros _. exists dlist. by rewrite Nat.sub_0_r.
  - destruct fuel as [|fuel]; [split; [done|lia]|].
    simpl. rewrite Hkey. simpl. destruct (IH fuel (title :: dlist)) as [Hlt Hge].
    split; intros ?; [apply Hlt|apply Hge]; lia.
Qed.

Lemma join_app (a : string) (p q : list string) : join a (p ++ q) = join (join a p) q.
Proof. unfold join. apply foldl_app. Qed.

Lemma join_absolute (a b : string) (p q : list string) :
  starts_with_sep b = true -> join a (p ++ b :: q) = join b q.
Proof.
  intros Hb. rewrite join_app. unfold join at 1. simpl.
  unfold join_step at 2. by rewrite Hb.
Qed.

Lemma join_step_keeps_absolute (path b : string) :
  starts_with_sep path = true -> starts_with_sep (join_step path b) = true.
Proof.
  intros Hpath. unfold join_step. destruct (starts_with_sep b) eqn:Hb; [done|].
  destruct path as [|c path]; [done|]. by destruct (_ || _).
Qed.

Lemma join_keeps_absolute (a : string) (p : list string) :
  starts_with_sep a = true -> starts_with_sep (join a p) = true.
Proof.
  revert a. induction p as [|b p IH]; intros a Ha; [done|].
  apply IH. by apply join_step_keeps_absolute.
Qed.

(** X17: when the chain of parents above a note ends at a top-level folder,
    [get_dir] returns the titles of the folders of the chain, the outermost
    first, joined by [os.path.join]; for a note at the top level it returns
    the empty string. *)
Theorem get_dir_joins_titles_from_root dirs parent above (fuel : nat) :
  ancestors dirs parent above ->
  (length above <= fuel)%nat ->
  get_dir fuel dirs parent =
    Some (inr (match above with
               | [] => ""%string
               | a :: p => join a p
               end)).
Proof.
  intros Hanc Hfuel. unfold get_dir.
  rewrite (get_dir_loop_ancestors dirs parent above Hanc fuel []) by done.
  by rewrite app_nil_r.
Qed.

(** X18: when the chain of parents reaches an id that is not a folder of the
    catalogue, [get_dir] raises [KeyError] with that id. *)
Theorem get_dir_raises_on_missing_folder dirs parent (key : string) (n fuel : nat) :
  nsteps (parent_of dirs) n parent (Some key) ->
  dirs !! key = None ->
  (n < fuel)%nat ->
  get_dir fuel dirs parent = Some (inl (KeyError key)).
Proof.
  intros Hsteps Hkey Hfuel. unfold get_dir.
  destruct (get_dir_loop_steps dirs n parent (Some key) Hsteps fuel []) as [_ Hge].
  destruct Hge as [dlist' ->]; [lia|].
  destruct (fuel - n)%nat as [|m] eqn:Hm; [lia|]. simpl. by rewrite Hkey.
Qed.

(** X19: when a folder is among its own ancestors, the loop of [get_dir]
    does not end: no number of turns gives a result. *)
Theorem get_dir_loops_on_cycle dirs (key : string) (n : nat) :
  nsteps (parent_of dirs) (S n) (Some key) (Some key) ->
  forall fuel : nat, get_dir fuel dirs (Some key) = None.
Proof.
  intros Hcycle fuel. unfold get_dir.
  assert (Hloop : forall dlist, get_dir_loop fuel dirs (Some key) dlist = None);
    [|by rewrite Hloop].
  induction fuel as [fuel IH] using lt_wf_ind. intros dlist.
  destruct (get_dir_loop_steps dirs (S n) _ _ Hcycle fuel dlist) as [Hlt Hge].
  destruct (decide (fuel < S n)%nat) as [Hshort|Hlong]; [by apply Hlt|].
  destruct Hge as [dlist' ->]; [lia|]. apply IH. lia.
Qed.

(** X20: a folder whose title starts with [/] hides the folders above it,
    and the directory [render_all] makes for the notes below it does not lie
    under [save_to]: joining [save_to] with the [dirname] gives the
    [dirname] itself. *)
Theorem absolute_title_leaves_save_to dirs parent above (t : string) below (fuel : nat) :
  ancestors dirs parent (above ++ t :: below) ->
  starts_with_sep t = true ->
  (length (above ++ t :: below) <= fuel)%nat ->
  get_dir fuel dirs parent = Some (inr (join t below)) /\
  forall save_to : string, join save_to [join t below] = join t below.
Proof.
  intros Hanc Ht Hfuel. split.
  - unfold get_dir.
    rewrite (get_dir_loop_ancestors dirs parent _ Hanc fuel []) by done.
    rewrite app_nil_r. destruct above as [|a above']; [done|].
    simpl. by rewrite (join_absolute a t above' below).
  - intros save_to. unfold join at 1. simpl. unfold join_step.
    by rewrite (join_keeps_absolute t below Ht).
Qed.

End Folders.

Lemma get_dir_joins_titles_from_root_witness :
  get_dir 2 (<["f2" := ("2024", Some "f1")]> (<["f1" := ("Work", None)]> ∅))%string
          (Some "f2"%string)
  = Some (inr "Work/2024"%string).
Proof.
  apply (get_dir_joins_titles_from_root _ _ ["Work"; "2024"]%string); [|done].
  apply (ancestors_some _ "f2" "2024" (Some "f1") ["Work"])%string; [done|].
  apply (ancestors_some _ "f1" "Work" None [])%string; [done|constructor].
Defined.

Lemma get_dir_raises_on_missing_folder_witness :
  get_dir 2 (<["f2" := ("2024", Some "f1")]> ∅)%string (Some "f2"%string)
  = Some (inl (KeyError "f1")).
Proof.
  apply (get_dir_raises_on_missing_folder _ _ "f1"%string 1); [|done|lia].
  eapply nsteps_l; [|constructor]. by exists "f2"%string, "2024"%string.
Defined.

Lemma get_dir_loops_on_cycle_witness :
  get_dir 100 (<["a" := ("A", Some "b")]> (<["b" := ("B", Some "a")]> ∅))%string
          (Some "a"%string)
  = None.
Proof.
  apply (get_dir_loops_on_cycle _ "a"%string 1).
  eapply nsteps_l; [by exists "a"%string, "A"%string|].
  eapply nsteps_l; [by exists "b"%string, "B"%string|]. constructor.
Defined.

Lemma absolute_title_leaves_save_to_witness :
  get_dir 2 (<["f2" := ("/tmp", Some "f1")]> (<["f1" := ("Work", None)]> ∅))%string
          (Some "f2"%string)
  = Some (inr "/tmp"%string) /\
  forall save_to : string, join save_to ["/tmp"%string] = "/tmp"%string.
Proof.
  apply (absolute_title_leaves_save_to _ _ ["Work"%string] "/tmp"%string [] 2);
    [|done|done].
  apply (ancestors_some _ "f2" "/tmp" (Some "f1") ["Work"])%string; [done|].
  apply (ancestors_some _ "f1" "Work" None [])%string; [done|constructor].
Defined.

(** ** The catalogue and the batch *)

Section Batch.
Context {A : Type} `{Scalar A}.
Implicit Types (dirs : gmap string (string * option string)) (table rows : list NoteModel.t)
  (store : string -> string -> list (shape A)) (save_to : string).

Lemma read_docs_inr (fuel : nat) dirs rows notes :
  read_docs fuel dirs rows = Some (inr notes) ->
  Note.id <$> notes = NoteModel.uniqueId <$> rows /\
  Note.title <$> notes = NoteModel.title <$> rows /\
  Note.pages <$> notes = NoteModel.pageNameList <$> rows /\
  Forall2 (fun row note =>
             get_dir fuel dirs (NoteModel.parentUniqueId row) = Some (inr (Note.dirname note)))
          rows notes.
Proof.
  revert notes. induction rows as [|row rows IH]; intros notes Hr.
  - injection Hr as <-. by repeat split.
  - cbn [read_docs] in Hr.
    destruct (get_dir fuel dirs (NoteModel.parentUniqueId row)) as [[e|dirname]|] eqn:Hdir;
      [done| |done].
    destruct (read_docs fuel dirs rows) as [[e|res]|]; [done| |done].
    injection Hr as <-. destruct (IH res eq_refl) as (Hid & Htitle & Hpages & Hdirs).
    csimpl. rewrite Hid, Htitle, Hpages. repeat split. by constructor.
Qed.

(** X21: when [read_doc_list] returns, its list holds one entry for each
    row of type 1, in the order of the rows, with the id, the title and the
    page list of the row, and with the path [get_dir] returns for the parent
    of the row; rows of any other type give no entry. *)
Theorem read_doc_list_keeps_notes_in_order (fuel : nat) table notes :
  read_doc_list fuel table = Some (inr notes) ->
  Note.id <$> notes
    = NoteModel.uniqueId <$> List.filter (fun row => NoteModel.type row =? 1) table /\
  Note.title <$> notes
    = NoteModel.title <$> List.filter (fun row => NoteModel.type row =? 1) table /\
  Note.pages <$> notes
    = NoteModel.pageNameList <$> List.filter (fun row => NoteModel.type row =? 1) table /\
  Forall2 (fun row note =>
             get_dir fuel (read_dirs table) (NoteModel.parentUniqueId row)
             = Some (inr (Note.dirname note)))
          (List.filter (fun row => NoteModel.type row =? 1) table) notes.
Proof. apply read_docs_inr. Qed.

Lemma foldl_insert_absent (key : string) rows dirs :
  dirs !! key = None ->
  key ∉ NoteModel.uniqueId <$> rows ->
  foldl (fun dirs row =>
           <[NoteModel.uniqueId row := (NoteModel.title row, NoteModel.parentUniqueId row)]> dirs)
        dirs rows !! key = None.
Proof.
  revert dirs. induction rows as [|row rows IH]; intros dirs Hdirs Hkey; [done|].
  rewrite fmap_cons in Hkey. apply not_elem_of_cons in Hkey as [Hne Hkey].
  cbn [foldl]. apply IH; [|done]. by rewrite lookup_insert_ne.
Qed.

Lemma read_docs_broken_parent dirs (key : string) row rows (fuel : nat) :
  row ∈ rows ->
  NoteModel.parentUniqueId row = Some key ->
  dirs !! key = None ->
  forall notes, read_docs fuel dirs rows <> Some (inr notes).
Proof.
  intros Hin Hparent Hkey.
  assert (Hdir : forall dirname, get_dir fuel dirs (Some key) <> Some (inr dirname)).
  { intros dirname. unfold get_dir. destruct fuel as [|fuel]; [done|].
    cbn [get_dir_loop]. by rewrite Hkey. }
  induction rows as [|row' rows IH]; intros notes; [by apply elem_of_nil in Hin|].
  cbn [read_docs].
  destruct (get_dir fuel dirs (NoteModel.parentUniqueId row')) as [[e|dirname]|] eqn:Hd;
    [done| |done].
  apply elem_of_cons in Hin as [->|Hin].
  - rewrite Hparent in Hd. by destruct (Hdir dirname).
  - destruct (read_docs fuel dirs rows) as [[e|res]|] eqn:Hres; [done| |done].
    by destruct (IH Hin res).
Qed.

(** X22: one note whose parent is not a folder of the catalogue keeps
    [render_all] from rendering anything: whatever the other notes are, no
    directory is made and no document is rendered. *)
Theorem broken_parent_renders_nothing table (row : NoteModel.t) (key : string)
    (fuel : nat) store save_to :
  row ∈ table ->
  NoteModel.type row = 1 ->
  NoteModel.parentUniqueId row = Some key ->
  key ∉ NoteModel.uniqueId <$> List.filter (fun row => NoteModel.type row =? 0) table ->
  render_all fuel table store save_to = None \/
  exists e, render_all fuel table store save_to = Some ([], Some (CatalogError e)).
Proof.
  intros Hin Htype Hparent Hkey. unfold render_all.
  destruct (read_doc_list fuel table) as [[e|notes]|] eqn:Hread; [eauto| |eauto].
  exfalso. unfold read_doc_list in Hread.
  apply (read_docs_broken_parent (read_dirs table) key row _ fuel) in Hread; [done| |done|].
  - apply list_elem_of_In, List.filter_In. split; [by apply list_elem_of_In|].
    by apply Z.eqb_eq.
  - apply foldl_insert_absent; [done|exact Hkey].
Qed.

(** X23: a note that raises ends the batch: the notes before it are
    rendered, its own directory is made and its document begun, and the
    notes after it have no effect at all. *)
Theorem failing_note_stops_the_batch store save_to pre (note : Note.t) post e :
  (render_pdf (store (Note.id note)) (Descriptor (Note.title note) (Note.pages note))).2
  = Some e ->
  (exists e', (render_notes store save_to (pre ++ note :: post)).2 = Some (RenderError e')) /\
  render_notes store save_to (pre ++ note :: post)
  = render_notes store save_to (pre ++ [note]).
Proof.
  intros Hfail. induction pre as [|note0 pre [[e' IHe] IHeq]].
  - cbn [app render_notes].
    destruct (render_pdf (store (Note.id note)) _) as [ops [e0|]]; [|done].
    split; [by exists e0|done].
  - cbn [app render_notes].
    destruct (render_pdf (store (Note.id note0)) _) as [ops [e0|]].
    + split; [by exists e0|done].
    + change (pre ++ note :: post) with (pre ++ note :: post) in *.
      rewrite IHeq in IHe |- *.
      destruct (render_notes store save_to (pre ++ [note])) as [actions r].
      split; [by exists e'|done].
Qed.

(** X24: when the catalogue is read and every note renders, [render_all]
    returns and has made, for each note in catalogue order, the directory
    [join(save_to, dirname)] and the document [title + ".pdf"] in it, with
    the canvas calls of [render_pdf] on the store of the note. *)
Theorem render_all_renders_every_note (fuel : nat) table notes store save_to :
  read_doc_list fuel table = Some (inr notes) ->
  (forall note, note ∈ notes ->
     (render_pdf (store (Note.id note))
                 (Descriptor (Note.title note) (Note.pages note))).2 = None) ->
  render_all fuel table store save_to =
    Some (mjoin (note_actions store save_to <$> notes), None).
Proof.
  intros Hread Hok. unfold render_all. rewrite Hread. f_equal. clear Hread.
  induction notes as [|note notes IH]; [done|].
  cbn [render_notes]. pose proof (Hok note ltac:(left)) as Hnote.
  rewrite IH by (intros n Hn; apply Hok; by right).
  rewrite fmap_cons.
  change (mjoin (note_actions store save_to note :: (note_actions store save_to <$> notes)))
    with (note_actions store save_to note ++ mjoin (note_actions store save_to <$> notes)).
  unfold note_actions at 2.
  destruct (render_pdf (store (Note.id note)) _) as [ops r]. cbn [snd] in Hnote.
  subst r. reflexivity.
Qed.

End Batch.

Lemma read_doc_list_keeps_notes_in_order_witness :
  Note.id <$> [note_ideas; note_top]
  = NoteModel.uniqueId <$> List.filter (fun row => NoteModel.type row =? 1) sample_catalogue.
Proof.
  destruct (read_doc_list_keeps_notes_in_order 2 sample_catalogue [note_ideas; note_top])
    as (Hid & _); [vm_compute; reflexivity|exact Hid].
Defined.

Lemma broken_parent_renders_nothing_witness :
  render_all (A := float) 3
    (NoteModel.Row "n0" "Lost" ["p"%string] (Some "gone"%string) 1 :: sample_catalogue)
    (fun _ _ => [blue_line]) "out" = None \/
  exists e,
    render_all (A := float) 3
      (NoteModel.Row "n0" "Lost" ["p"%string] (Some "gone"%string) 1 :: sample_catalogue)
      (fun _ _ => [blue_line]) "out" = Some ([], Some (CatalogError e)).
Proof.
  apply (broken_parent_renders_nothing _
           (NoteModel.Row "n0" "Lost" ["p"%string] (Some "gone"%string) 1) "gone"%string).
  - left.
  - reflexivity.
  - reflexivity.
  - vm_compute. intros Hin. repeat (apply elem_of_cons in Hin as [Hin|Hin]; [done|]).
    by apply elem_of_nil in Hin.
Defined.

Lemma failing_note_stops_the_batch_witness :
  render_notes (fun _ _ => [ragged]) "out" ([note_ideas] ++ note_top :: [note_ideas])
  = render_notes (fun _ _ => [ragged]) "out" ([note_ideas] ++ [note_top]).
Proof.
  apply (failing_note_stops_the_batch (fun _ _ => [ragged]) "out" [note_ideas]
           note_top [note_ideas] (ValueError 7 [-1; 6])).
  vm_compute. reflexivity.
Defined.

Lemma render_all_renders_every_note_witness :
  render_all 2 sample_catalogue (fun _ _ => [blue_line]) "out" =
    Some (mjoin (note_actions (fun _ _ => [blue_line]) "out" <$> [note_ideas; note_top]),
          None).
Proof.
  apply render_all_renders_every_note; [vm_compute; reflexivity|].
  intros note Hnote.
  apply elem_of_cons in Hnote as [->|Hnote]; [vm_compute; reflexivity|].
  apply elem_of_cons in Hnote as [->|Hnote]; [vm_compute; reflexivity|].
  by apply elem_of_nil in Hnote.
Defined.
